(** * vite-react-mcp: the browser overlay and the MCP bridge

    A shallow embedding of [src/overlay.ts] (the script injected in the page:
    tool installation, commit tracking, the four hot-channel handlers) and of
    [src/mcp/index.ts] (the tool dispatcher and the SSE/HTTP session routing),
    followed by the properties established about them.

    Conventions.  JavaScript strings are [string]; a JavaScript number that
    only ever holds a counter is a [Z] (additions of 1 are exact on a double
    far beyond any number of commits a page can perform); [Map] and [Set] are
    stdpp's [gmap] and [gset]; object identity is a [nat] reference; a handler
    that may throw returns a sum or records its completion explicitly. *)

From Stdlib Require Import Ascii String ZArith List Sorted Lia.
From stdpp Require Import gmap strings list pretty.

Set Warnings "-register-all".
Open Scope Z_scope.

(** ** JSON values and [JSON.stringify] on them *)

Module Json.

(** What [JSON.parse] can return.  Numbers are the integral ones, which is
    all the wire payloads of the four tools carry. *)
Inductive Json : Type :=
| JNull
| JBool (b : bool)
| JNum (n : Z)
| JStr (s : string)
| JArr (items : list Json)
| JObj (fields : list (string * Json)).

(** A value thrown by JavaScript code: an [Error] with its [message], or
    anything else, kept as the text [String(error)] yields. *)
Inductive Thrown : Type :=
| ThrownError (message : string)
| ThrownOther (text : string).

(** [error instanceof Error ? error.message : String(error)] *)
Definition errorMessage (e : Thrown) : string :=
  match e with
  | ThrownError m => m
  | ThrownOther t => t
  end.

(** [error instanceof Error ? error.message : fallback] *)
Definition errorMessageOr (fallback : string) (e : Thrown) : string :=
  match e with
  | ThrownError m => m
  | ThrownOther _ => fallback
  end.

Definition quote : ascii := "034"%char.
Definition backslash : ascii := "092"%char.

Definition hexDigit (n : nat) : ascii :=
  if (n <? 10)%nat then ascii_of_nat (48 + n) else ascii_of_nat (87 + n).

(** [QuoteJSONString]'s treatment of one code unit. *)
Definition escapeChar (c : ascii) : string :=
  let n := nat_of_ascii c in
  if (n =? 34)%nat then String backslash (String quote EmptyString)
  else if (n =? 92)%nat then String backslash (String backslash EmptyString)
  else if (n =? 8)%nat then String backslash "b"
  else if (n =? 12)%nat then String backslash "f"
  else if (n =? 10)%nat then String backslash "n"
  else if (n =? 13)%nat then String backslash "r"
  else if (n =? 9)%nat then String backslash "t"
  else if (n <? 32)%nat then
    String backslash
      (String "u" (String "0" (String "0"
         (String (hexDigit (n / 16)) (String (hexDigit (n mod 16)) EmptyString)))))
  else String c EmptyString.

Fixpoint escapeString (s : string) : string :=
  match s with
  | EmptyString => EmptyString
  | String c rest => escapeChar c +:+ escapeString rest
  end.

Definition quoteString (s : string) : string :=
  String quote (escapeString s +:+ String quote EmptyString).

Fixpoint joinWith (sep : string) (parts : list string) : string :=
  match parts with
  | [] => EmptyString
  | [p] => p
  | p :: rest => p +:+ sep +:+ joinWith sep rest
  end.

(** [JSON.stringify] without indentation. *)
Fixpoint stringify (j : Json) : string :=
  match j with
  | JNull => "null"
  | JBool true => "true"
  | JBool false => "false"
  | JNum n => pretty n
  | JStr s => quoteString s
  | JArr items => "[" +:+ joinWith "," (map stringify items) +:+ "]"
  | JObj fields =>
      "{" +:+
      joinWith "," (map (fun kv => quoteString (fst kv) +:+ ":" +:+ stringify (snd kv)) fields)
      +:+ "}"
  end.

(** Own-property lookup in a parsed object, [o[key]]; [None] is [undefined]. *)
Fixpoint assoc (key : string) (fields : list (string * Json)) : option Json :=
  match fields with
  | [] => None
  | (k, v) :: rest => if String.eqb k key then Some v else assoc key rest
  end.

(** [value.key]: reading a property of [null] throws a [TypeError]; every
    other non-object has no such own property. *)
Definition getMember (value : Json) (key : string) : Thrown + option Json :=
  match value with
  | JNull => inl (ThrownError ("Cannot read properties of null (reading '" +:+ key +:+ "')"))
  | JObj fields => inr (assoc key fields)
  | _ => inr None
  end.

(** [value?.key] *)
Definition getMemberOpt (value : Json) (key : string) : option Json :=
  match value with
  | JObj fields => assoc key fields
  | _ => None
  end.

(** [!!value], with [None] for [undefined]. *)
Definition truthy (value : option Json) : bool :=
  match value with
  | None => false
  | Some JNull => false
  | Some (JBool b) => b
  | Some (JNum n) => negb (n =? 0)
  | Some (JStr s) => negb (String.eqb s EmptyString)
  | Some (JArr _) => true
  | Some (JObj _) => true
  end.

End Json.

Import Json.

(** ** The string methods the sources use *)

Module JsString.

(** [s.startsWith(p)] *)
Definition startsWith (p s : string) : bool := String.prefix p s.

(** [s.endsWith(suffix)] *)
Fixpoint endsWith (suffix s : string) : bool :=
  String.eqb suffix s
  || match s with
     | EmptyString => false
     | String _ rest => endsWith suffix rest
     end.

(** [s.includes(part)] *)
Fixpoint includes (part s : string) : bool :=
  String.prefix part s
  || match s with
     | EmptyString => false
     | String _ rest => includes part rest
     end.

(** [s.slice(1)] *)
Definition slice1 (s : string) : string :=
  match s with
  | EmptyString => EmptyString
  | String _ rest => rest
  end.

(** What is left of [s] after its prefix [p], when it has that prefix. *)
Fixpoint stripPrefix (p s : string) : option string :=
  match p, s with
  | EmptyString, _ => Some s
  | String a p', String b s' => if Ascii.eqb a b then stripPrefix p' s' else None
  | String _ _, EmptyString => None
  end.

(** The first occurrence of [search] in [s]: what precedes it and what follows it. *)
Fixpoint splitAtFirst (search s : string) : option (string * string) :=
  match stripPrefix search s with
  | Some after => Some (EmptyString, after)
  | None =>
      match s with
      | EmptyString => None
      | String c rest =>
          match splitAtFirst search rest with
          | Some (before, after) => Some (String c before, after)
          | None => None
          end
      end
  end.

(** GetSubstitution for a string pattern (no captures): in the replacement
    text, [$$] is a dollar sign, [$&] the match, [$`] what precedes the
    match, [$'] what follows it; any other dollar sign stands for itself. *)
Fixpoint getSubstitution (matched before after template : string) : string :=
  match template with
  | EmptyString => EmptyString
  | String c tail =>
      if Ascii.eqb c "$" then
        match tail with
        | String d rest =>
            if Ascii.eqb d "$" then String "$" (getSubstitution matched before after rest)
            else if Ascii.eqb d "&" then matched +:+ getSubstitution matched before after rest
            else if Ascii.eqb d "`" then before +:+ getSubstitution matched before after rest
            else if Ascii.eqb d "'" then after +:+ getSubstitution matched before after rest
            else String "$" (getSubstitution matched before after tail)
        | EmptyString => String "$" EmptyString
        end
      else String c (getSubstitution matched before after tail)
  end.

(** [s.replace(search, replacement)] for a string [search]: the first
    occurrence only. *)
Definition replace (search replacement s : string) : string :=
  match splitAtFirst search s with
  | Some (before, after) =>
      before +:+ getSubstitution search before after replacement +:+ after
  | None => s
  end.

End JsString.

(** ** Ordinary JavaScript objects: own data properties and their attributes

    The part of the object model [init] relies on: [Object.hasOwn],
    [Object.defineProperty] on data properties, reading a member and
    assigning to a member in strict code (module code is strict).  Prototype
    chains and accessors play no role for the objects involved. *)

Module JsObject.

Inductive Value : Type :=
| VUndefined
| VFunction (name : string)
| VRef (ref : nat).

#[global] Instance Value_eq_dec : EqDecision Value.
Proof. solve_decision. Defined.

Record Property : Type := mkProperty {
  value : Value;
  writable : bool;
  enumerable : bool;
  configurable : bool
}.

(** The descriptor argument of [Object.defineProperty]: absent fields are [None]. *)
Record Descriptor : Type := mkDescriptor {
  d_value : option Value;
  d_writable : option bool;
  d_enumerable : option bool;
  d_configurable : option bool
}.

Record Obj : Type := mkObj {
  props : gmap string Property;
  extensible : bool
}.

(** A property created by an object literal or by assignment. *)
Definition plainProperty (v : Value) : Property :=
  {| value := v; writable := true; enumerable := true; configurable := true |}.

Definition objectLiteral (members : list (string * Value)) : Obj :=
  {| props := list_to_map (map (fun kv => (fst kv, plainProperty (snd kv))) members);
     extensible := true |}.

(** [Object.hasOwn(o, key)] *)
Definition hasOwn (o : Obj) (key : string) : bool :=
  match props o !! key with
  | Some _ => true
  | None => false
  end.

Definition typeError (what : string) : Thrown := ThrownError ("TypeError: " +:+ what).

(** Does applying [d] change an attribute of [p] that a non-configurable
    property keeps fixed?  (ValidateAndApplyPropertyDescriptor, data case.) *)
Definition rejectedOnFrozen (p : Property) (d : Descriptor) : bool :=
  bool_decide (d_configurable d = Some true)
  || match d_enumerable d with Some e => negb (Bool.eqb e (enumerable p)) | None => false end
  || (negb (writable p)
      && (bool_decide (d_writable d = Some true)
          || match d_value d with Some v => negb (bool_decide (v = value p)) | None => false end)).

(** [Object.defineProperty(o, key, d)] for a data descriptor. *)
Definition defineProperty (o : Obj) (key : string) (d : Descriptor) : Thrown + Obj :=
  match props o !! key with
  | None =>
      if extensible o then
        inr {| props := <[key := {| value := default VUndefined (d_value d);
                                    writable := default false (d_writable d);
                                    enumerable := default false (d_enumerable d);
                                    configurable := default false (d_configurable d) |}]> (props o);
               extensible := true |}
      else inl (typeError ("Cannot define property " +:+ key +:+ ", object is not extensible"))
  | Some p =>
      if negb (configurable p) && rejectedOnFrozen p d then
        inl (typeError ("Cannot redefine property: " +:+ key))
      else
        inr {| props := <[key := {| value := default (value p) (d_value d);
                                    writable := default (writable p) (d_writable d);
                                    enumerable := default (enumerable p) (d_enumerable d);
                                    configurable := default (configurable p) (d_configurable d) |}]> (props o);
               extensible := extensible o |}
  end.

(** [o[key] = v] in strict code. *)
Definition assign (o : Obj) (key : string) (v : Value) : Thrown + Obj :=
  match props o !! key with
  | Some p =>
      if writable p then
        inr {| props := <[key := {| value := v; writable := true;
                                    enumerable := enumerable p;
                                    configurable := configurable p |}]> (props o);
               extensible := extensible o |}
      else inl (typeError ("Cannot assign to read only property '" +:+ key +:+ "' of object"))
  | None =>
      if extensible o then
        inr {| props := <[key := plainProperty v]> (props o); extensible := true |}
      else inl (typeError ("Cannot add property " +:+ key +:+ ", object is not extensible"))
  end.

(** The page: the global [target] object and the objects allocated so far. *)
Record Realm : Type := mkRealm {
  target : Obj;
  heap : gmap nat Obj
}.

(** Evaluating an object literal allocates a fresh object. *)
Definition alloc (o : Obj) (r : Realm) : nat * Realm :=
  let ref := fresh (dom (heap r)) in
  (ref, {| target := target r; heap := <[ref := o]> (heap r) |}).

(** What an expression denotes an object by: the global, or a reference. *)
Inductive Place : Type :=
| Global
| At (ref : nat).

Definition objectAt (r : Realm) (p : Place) : option Obj :=
  match p with
  | Global => Some (target r)
  | At ref => heap r !! ref
  end.

Definition storeAt (r : Realm) (p : Place) (o : Obj) : Realm :=
  match p with
  | Global => {| target := o; heap := heap r |}
  | At ref => {| target := target r; heap := <[ref := o]> (heap r) |}
  end.

(** [place.key] *)
Definition readMember (r : Realm) (p : Place) (key : string) : Value :=
  match objectAt r p with
  | Some o => match props o !! key with Some q => value q | None => VUndefined end
  | None => VUndefined
  end.

(** [place.key = v] *)
Definition assignMember (r : Realm) (p : Place) (key : string) (v : Value) : Thrown + Realm :=
  match objectAt r p with
  | Some o =>
      match assign o key v with
      | inr o' => inr (storeAt r p o')
      | inl e => inl e
      end
  | None => inl (typeError "dangling reference")
  end.

End JsObject.

(** ** [src/overlay.ts]: the script running in the page *)

Module Overlay.

Import JsObject.

(** *** [init]: installing the tool surface on [target] *)

(** The property key exported by [shared/const.js]; the handlers below read
    the tools back under this very name. *)
Definition __VITE_REACT_MCP_TOOLS__ : string := "__VITE_REACT_MCP_TOOLS__".

(** The object literal passed as [value]: the four imported tool functions. *)
Definition toolsLiteral : Obj :=
  objectLiteral
    [ ("highlightComponent"%string, VFunction "highlightComponent");
      ("getComponentTree"%string, VFunction "getComponentTree");
      ("getComponentStates"%string, VFunction "getComponentStates");
      ("getUnnecessaryRenderedComponents"%string, VFunction "queryWastedRender") ].

Definition init (r : Realm) : Thrown + Realm :=
  if hasOwn (target r) __VITE_REACT_MCP_TOOLS__ then inr r
  else
    let '(ref, r1) := alloc toolsLiteral r in
    match defineProperty (target r1) __VITE_REACT_MCP_TOOLS__
            {| d_value := Some (VRef ref);
               d_writable := Some false;
               d_enumerable := None;
               d_configurable := Some true |} with
    | inr t => inr {| target := t; heap := heap r1 |}
    | inl e => inl e
    end.

(** [target.__VITE_REACT_MCP_TOOLS__.name], as the handlers and the page's
    own scripts read a tool. *)
Definition installedTool (r : Realm) (name : string) : Value :=
  match readMember r Global __VITE_REACT_MCP_TOOLS__ with
  | VRef ref => readMember r (At ref) name
  | _ => VUndefined
  end.

(** The property [init] defines: non-writable, not enumerable, configurable. *)
Definition installedProperty (ref : nat) : Property :=
  {| value := VRef ref; writable := false; enumerable := false; configurable := true |}.

(** A page on which nothing is installed yet. *)
Definition emptyPage : Realm :=
  {| target := {| props := ∅; extensible := true |}; heap := ∅ |}.

(** *** The commit hook passed to [bippy.instrument] *)

Inductive Phase : Type :=
| mount
| update
| unmount.

(** A fiber as the hook sees it: its identity, and whether the inputs it
    rendered with (props, state, context) differ from the previous ones. *)
Record Fiber : Type := mkFiber {
  fiberRef : nat;
  inputsChanged : bool
}.

(** One call of [onCommitFiberRoot(_renderId, root)].  [rendered] lists, in
    order, the pairs [(fiber, phase)] that
    [bippy.traverseRenderedFibers(root.current || root, callback)] hands to
    its callback for this commit. *)
Record Commit : Type := mkCommit {
  renderId : nat;
  root : nat;
  rendered : list (Fiber * Phase)
}.

(** One classification made by [collectUnnecessaryRender]. *)
Record Classified : Type := mkClassified {
  frameId : Z;
  classifiedFiber : nat;
  wasted : bool
}.

(** Modelled from the spec: [store] of [shared/store.js] is not in src/.  It
    owns the commit counter [currentCommitFrameId] (spec 2, Commit Store) and
    the classifications the detector writes back (spec 2 and 3). *)
Record Store : Type := mkStore {
  currentCommitFrameId : Z;
  classifications : list Classified
}.

(** Modelled from the spec: [collectUnnecessaryRender] of
    [core/tools/track_wasted_render.js] is not in src/.  By spec 4.2 it tags
    the re-render of the component as wasted iff the comparison of its pre-
    and post-commit inputs reports no difference, and writes the
    classification into the store under the commit being ingested. *)
Definition collectUnnecessaryRender (fiber : Fiber) (s : Store) : Store :=
  {| currentCommitFrameId := currentCommitFrameId s;
     classifications :=
       classifications s ++
       [ {| frameId := currentCommitFrameId s;
            classifiedFiber := fiberRef fiber;
            wasted := negb (inputsChanged fiber) |} ] |}.

(** The callback given to [traverseRenderedFibers]. *)
Definition onRenderedFiber (fiber : Fiber) (phase : Phase) (s : Store) : Store :=
  match phase with
  | update => collectUnnecessaryRender fiber s
  | _ => s
  end.

(** [bippy.traverseRenderedFibers]: the callback runs once per rendered
    fiber, in traversal order. *)
Fixpoint traverseRenderedFibers (fibers : list (Fiber * Phase))
    (callback : Fiber -> Phase -> Store -> Store) (s : Store) : Store :=
  match fibers with
  | [] => s
  | (fiber, phase) :: rest => traverseRenderedFibers rest callback (callback fiber phase s)
  end.

(** The module-level mutable state of the overlay: [fiberRoots] and [store]. *)
Record Tracking : Type := mkTracking {
  fiberRoots : gmap nat (gset nat);
  store : Store
}.

(** [onCommitFiberRoot]: the root is filed under its render id, the
    rendered fibers are traversed, and the counter moves on.  Here [+= 1] is
    the successor of an integer; [onCommitFiberRootJs] below has it as the
    sum of numbers that it is, and differs from 2^53 on. *)
Definition onCommitFiberRoot (c : Commit) (t : Tracking) : Tracking :=
  let roots :=
    match fiberRoots t !! renderId c with
    | Some known => <[renderId c := known ∪ {[root c]}]> (fiberRoots t)
    | None => <[renderId c := {[root c]}]> (fiberRoots t)
    end in
  let s := traverseRenderedFibers (rendered c) onRenderedFiber (store t) in
  {| fiberRoots := roots;
     store := {| currentCommitFrameId := currentCommitFrameId s + 1;
                 classifications := classifications s |} |}.

(** The page's life: the hook runs once per commit notification, in arrival order. *)
Fixpoint ingest (commits : list Commit) (t : Tracking) : Tracking :=
  match commits with
  | [] => t
  | c :: rest => ingest rest (onCommitFiberRoot c t)
  end.

(** The id each commit is ingested under: the value of
    [store.currentCommitFrameId] while its hook runs. *)
Fixpoint commitIds (commits : list Commit) (t : Tracking) : list Z :=
  match commits with
  | [] => []
  | c :: rest => currentCommitFrameId (store t) :: commitIds rest (onCommitFiberRoot c t)
  end.

(** The state the module starts from: no root seen, nothing classified. *)
Definition startTracking (firstId : Z) : Tracking :=
  {| fiberRoots := ∅;
     store := {| currentCommitFrameId := firstId; classifications := [] |} |}.

(** Is [fiber] recorded as a wasted render of the commit ingested under [id]? *)
Definition recordedWasted (s : Store) (id : Z) (fiber : nat) : bool :=
  existsb (fun c => (frameId c =? id) && (classifiedFiber c =? fiber)%nat && wasted c)
          (classifications s).

(** The fibers of a commit that rendered in the update phase, in traversal order. *)
Definition updatedFibers (c : Commit) : list Fiber :=
  map fst (List.filter (fun fp => match snd fp with update => true | _ => false end)
                       (rendered c)).

(** The classification [collectUnnecessaryRender] writes for [fiber] while
    the commit numbered [id] is ingested. *)
Definition classificationOf (id : Z) (fiber : Fiber) : Classified :=
  {| frameId := id; classifiedFiber := fiberRef fiber; wasted := negb (inputsChanged fiber) |}.

(** *** [setupMcpToolsHandler]: the listeners on the hot channel *)

(** A value a tool returns, seen through [JSON.stringify]. *)
Inductive JsValue : Type :=
| Plain (j : Json)
| Undefined
| Unserializable (e : Thrown).

(** [JSON.stringify(v)]: a string, [undefined], or a throw (a cyclic
    structure, a BigInt, a throwing [toJSON]). *)
Definition JSON_stringify (v : JsValue) : Thrown + option string :=
  match v with
  | Plain j => inr (Some (stringify j))
  | Undefined => inr None
  | Unserializable e => inl e
  end.

(** [hot.send(event, data)] *)
Record HotEvent : Type := mkHotEvent {
  event : string;
  data : option string
}.

(** What running a listener did: the events it sent, and the value it threw
    if it did not complete.  ([console] output is not part of the model.) *)
Record Run : Type := mkRun {
  sent : list HotEvent;
  thrown : option Thrown
}.

Definition throws (e : Thrown) : Run := {| sent := []; thrown := Some e |}.

Definition sends (name : string) (payload : option string) : Run :=
  {| sent := [ {| event := name; data := payload |} ]; thrown := None |}.

Section Handlers.

(** The platform's [JSON.parse]. *)
Variable JSON_parse : string -> Thrown + Json.

(** The functions found under [target.__VITE_REACT_MCP_TOOLS__]
    ([core/tools/], not in src/): each returns or throws. *)
Variable highlightComponent : string -> Thrown + list nat.
(* [highlightComponent] gives the highlighted components, of which the
   listener reads the [length]; a result without one makes that read throw
   inside the same [try], which [inl] covers. *)
Variable getComponentTree : Json -> Thrown + JsValue.
Variable getComponentStates : string -> Thrown + JsValue.
Variable getUnnecessaryRenderedComponents : option Json -> bool -> bool -> Thrown + JsValue.

(** The [try { JSON.parse(data) } catch] prologue shared by the listeners. *)
Definition deserialize (fallback : string) (payload : string) : Thrown + Json :=
  match JSON_parse payload with
  | inr d => inr d
  | inl e => inl (ThrownError (errorMessageOr fallback e +:+ ": " +:+ payload))
  end.

Definition onHighlightComponent (payload : string) : Run :=
  match deserialize "Data is not deserializable" payload with
  | inl e => throws e
  | inr deserializedData =>
      match getMemberOpt deserializedData "componentName" with
      | Some (JStr componentName) =>
          let response :=
            match highlightComponent componentName with
            | inr components =>
                if (0 <? length components)%nat
                then "Found and highlighted " +:+ pretty (length components) +:+ " components"
                else "Action failed"
            | inl error => "Error: " +:+ errorMessage error
            end in
          sends "highlight-component-response" (Some response)
      | _ => throws (ThrownError "Invalid args sent from ViteDevServer")
      end
  end.

Definition onGetComponentTree (payload : string) : Run :=
  match deserialize "Args is not deserializable" payload with
  | inl e => throws e
  | inr deserializedData =>
      match getComponentTree deserializedData with
      | inl e => throws e
      | inr componentTreeRoot =>
          match JSON_stringify componentTreeRoot with
          | inl e => throws e
          | inr text => sends "get-component-tree-response" text
          end
      end
  end.

Definition onGetComponentStates (payload : string) : Run :=
  match deserialize "Data is not deserializable" payload with
  | inl e => throws e
  | inr deserializedData =>
      match getMemberOpt deserializedData "componentName" with
      | Some (JStr componentName) =>
          match getComponentStates componentName with
          | inl e => throws e
          | inr componentStatesResult =>
              match JSON_stringify componentStatesResult with
              | inl e => throws e
              | inr text => sends "get-component-states-response" text
              end
          end
      | _ => throws (ThrownError "Invalid data sent from ViteDevServer: missing componentName")
      end
  end.

Definition onGetUnnecessaryRerenders (payload : string) : Run :=
  match deserialize "Data is not deserializable" payload with
  | inl e => throws e
  | inr deserializedData =>
      match getMember deserializedData "timeframe" with
      | inl e => throws e
      | inr timeframe =>
          match getUnnecessaryRenderedComponents timeframe
                  (truthy (getMemberOpt deserializedData "allComponents"))
                  (truthy (getMemberOpt deserializedData "debugMode")) with
          | inl e => throws e
          | inr wastedRenders =>
              let response :=
                match JSON_stringify wastedRenders with
                | inr text => text
                | inl error =>
                    Some (stringify (JObj [("error"%string, JStr (errorMessage error))]))
                end in
              sends "get-unnecessary-rerenders-response" response
          end
      end
  end.

(** The listeners [setupMcpToolsHandler] registers when [import.meta.hot]
    exists; without it nothing listens. *)
Definition setupMcpToolsHandler (hot : bool) : list (string * (string -> Run)) :=
  if hot then
    [ ("highlight-component"%string, onHighlightComponent);
      ("get-component-tree"%string, onGetComponentTree);
      ("get-component-states"%string, onGetComponentStates);
      ("get-unnecessary-rerenders"%string, onGetUnnecessaryRerenders) ]
  else [].

(** Delivery of one custom event to the page: every listener registered
    under its name runs. *)
Definition deliver (hot : bool) (name payload : string) : list Run :=
  map (fun h => snd h payload)
      (filter (fun h => fst h = name) (setupMcpToolsHandler hot)).

End Handlers.

(** A run that either completed having sent the one event [name], or threw
    having sent nothing. *)
Definition answersOnceOrThrows (name : string) (r : Run) : Prop :=
  (thrown r = None /\ exists d, sent r = [ {| event := name; data := d |} ]) \/
  (exists e, thrown r = Some e /\ sent r = []).

(** The four request events. *)
Definition requestEvents : list string :=
  [ "highlight-component"; "get-component-tree";
    "get-component-states"; "get-unnecessary-rerenders" ]%string.

(** The roots recorded under a render id; none when the id is unknown. *)
Definition rootsOf (t : Tracking) (id : nat) : gset nat :=
  default ∅ (fiberRoots t !! id).

(** *** The commit counter as a JavaScript number

    [store.currentCommitFrameId] is a number, that is a double.  The
    definitions above increment it as a mathematical integer; the ones below
    give [+= 1] the arithmetic of a double holding an integer: the sum is
    rounded to the nearest double, ties to even.  Both agree as long as the
    counter is below 2^53 in magnitude. *)

(** The double nearest to the integer [m].  Every integer below 2^53 in
    magnitude is a double; from there on doubles are [2 ^ (log2 |m| - 52)]
    apart.  (Overflow to [Infinity], beyond 2^1023, is out of a counter's reach.) *)
Definition roundToNumber (m : Z) : Z :=
  let a := Z.abs m in
  if a <? 2 ^ 53 then m
  else
    let u := 2 ^ (Z.log2 a - 52) in
    let q := a / u in
    let r := a mod u in
    Z.sgn m *
    (if 2 * r <? u then q * u
     else if u <? 2 * r then (q + 1) * u
     else if Z.even q then q * u
     else (q + 1) * u).

(** [n + 1] on a number holding the integer [n]. *)
Definition plusOne (n : Z) : Z := roundToNumber (n + 1).

(** [onCommitFiberRoot], with the counter incremented as a number. *)
Definition onCommitFiberRootJs (c : Commit) (t : Tracking) : Tracking :=
  let roots :=
    match fiberRoots t !! renderId c with
    | Some known => <[renderId c := known ∪ {[root c]}]> (fiberRoots t)
    | None => <[renderId c := {[root c]}]> (fiberRoots t)
    end in
  let s := traverseRenderedFibers (rendered c) onRenderedFiber (store t) in
  {| fiberRoots := roots;
     store := {| currentCommitFrameId := plusOne (currentCommitFrameId s);
                 classifications := classifications s |} |}.

Fixpoint ingestJs (commits : list Commit) (t : Tracking) : Tracking :=
  match commits with
  | [] => t
  | c :: rest => ingestJs rest (onCommitFiberRootJs c t)
  end.

(** The id each commit is ingested under, with the counter as a number. *)
Fixpoint commitIdsJs (commits : list Commit) (t : Tracking) : list Z :=
  match commits with
  | [] => []
  | c :: rest => currentCommitFrameId (store t) :: commitIdsJs rest (onCommitFiberRootJs c t)
  end.

End Overlay.

(** ** [src/mcp/index.ts]: the tool dispatcher and the session routing *)

Module Mcp.

(** [z.ZodError]: [errors] is the list of issues. *)
Record ZodError : Type := mkZodError {
  errors : Json
}.

(** The four schemas of [mcp/schema.js] (not in src/), through their
    [parse]: the validated arguments, or a thrown [ZodError].  The argument
    is [request.params.arguments], which a request may omit. *)
Record Schemas : Type := mkSchemas {
  HighlightComponentSchema : option Json -> ZodError + Json;
  GetComponentTreeSchema : option Json -> ZodError + Json;
  GetComponentStatesSchema : option Json -> ZodError + Json;
  GetUnnecessaryRerendersSchema : option Json -> ZodError + Json
}.

(** [viteDevServer.ws.send({ type: 'custom', event, data })] *)
Record WsEvent : Type := mkWsEvent {
  event : string;
  data : string
}.

(** [{ content: [{ type: 'text', text }] }].  The text is the [data] of the
    response event, [None] when the page sent [undefined]. *)
Record CallToolResult : Type := mkCallToolResult {
  text : option string
}.

(** How a tool call can fail: the errors the handler throws itself, and the
    rejection of the wait. *)
Inductive CallError : Type :=
| InvalidInput (message : string)
| UnknownTool (message : string)
| TimeoutError (awaitedEvent : string).

(** The handler up to its [await]: it has either thrown, or it has sent one
    event and is suspended in [waitForEvent(viteDevServer, awaited)]. *)
Inductive Suspension : Type :=
| Throws (e : CallError)
| Awaits (request : WsEvent) (awaited : string).

(** One [case] of the [switch]: parse, send, wait. *)
Definition toolCase (parse : option Json -> ZodError + Json) (name : string)
    (arguments : option Json) : Suspension :=
  match parse arguments with
  | inr args =>
      Awaits {| event := name; data := stringify args |} (name +:+ "-response")
  | inl error =>
      Throws (InvalidInput ("Invalid input: " +:+ stringify (errors error)))
  end.

(** The [CallToolRequestSchema] handler, from its entry to its [await]. *)
Definition callTool (schemas : Schemas) (name : string) (arguments : option Json)
    : Suspension :=
  if String.eqb name "highlight-component" then
    toolCase (HighlightComponentSchema schemas) "highlight-component" arguments
  else if String.eqb name "get-component-tree" then
    toolCase (GetComponentTreeSchema schemas) "get-component-tree" arguments
  else if String.eqb name "get-component-states" then
    toolCase (GetComponentStatesSchema schemas) "get-component-states" arguments
  else if String.eqb name "get-unnecessary-rerenders" then
    toolCase (GetUnnecessaryRerendersSchema schemas) "get-unnecessary-rerenders" arguments
  else Throws (UnknownTool ("Unknown tool: " +:+ name)).

(** The handler after its [await]: [response.data] becomes the text. *)
Definition toolResult (responseData : option string) : CallToolResult :=
  {| text := responseData |}.

(** The schema each known tool name is parsed with. *)
Definition schemaOf (schemas : Schemas) (name : string)
    : option (option Json -> ZodError + Json) :=
  if String.eqb name "highlight-component" then Some (HighlightComponentSchema schemas)
  else if String.eqb name "get-component-tree" then Some (GetComponentTreeSchema schemas)
  else if String.eqb name "get-component-states" then Some (GetComponentStatesSchema schemas)
  else if String.eqb name "get-unnecessary-rerenders" then Some (GetUnnecessaryRerendersSchema schemas)
  else None.

(** *** The server's state *)

(** [new SSEServerTransport('/messages', res)] *)
Record SSEServerTransport : Type := mkTransport {
  endpoint : string;
  sessionId : string
}.

(** A handler suspended in [waitForEvent].  [caller] identifies the tool
    call and [owner] the session it came in on; the code keeps neither, they
    only let properties speak about calls and sessions. *)
Record Waiter : Type := mkWaiter {
  caller : nat;
  owner : string;
  awaitedEvent : string;
  deadline : nat
}.

Inductive Outcome : Type :=
| Resolved (result : CallToolResult)
| Rejected (e : CallError).

(** The end of a tool call: what its client receives, and when. *)
Record Settlement : Type := mkSettlement {
  settledCall : nat;
  settledAt : nat;
  outcome : Outcome
}.

Record HttpRequest : Type := mkHttpRequest {
  method : string;
  url : option string
}.

(** What [initMcpServer] and [instrumentViteDevServer] close over:
    [transports], the session registry; [handed], the requests passed to
    [transport.handlePostMessage]; [wsSent], the events given to
    [viteDevServer.ws.send]; the suspended handlers and the finished calls;
    and the clock. *)
Record Server : Type := mkServer {
  transports : gmap string SSEServerTransport;
  handed : list (string * HttpRequest);
  wsSent : list WsEvent;
  waiters : list Waiter;
  settled : list Settlement;
  now : nat
}.

Definition startServer : Server :=
  {| transports := ∅; handed := []; wsSent := []; waiters := []; settled := []; now := 0 |}.

Section Dispatcher.

Variable schemas : Schemas.

(** The fixed timeout of a wait (spec 4.3: fixed, configurable). *)
Variable timeout : nat.

(** Modelled from the spec: [waitForEvent] of [shared/node_util.js] is not
    in src/.  Its call sites pass the dev server and an event name only.  By
    spec 4.3 the pipe delivers a response event to all listeners,
    undifferentiated by call identity, so the wait registers a listener for
    the event name; it is rejected if no such event arrives before the
    deadline, a fixed timeout after the wait began. *)
Definition waitForEvent (who : nat) (session awaited : string) (s : Server) : Server :=
  {| transports := transports s; handed := handed s; wsSent := wsSent s;
     waiters := waiters s ++
                [ {| caller := who; owner := session; awaitedEvent := awaited;
                     deadline := (now s + timeout)%nat |} ];
     settled := settled s; now := now s |}.

Definition wsSend (e : WsEvent) (s : Server) : Server :=
  {| transports := transports s; handed := handed s; wsSent := wsSent s ++ [e];
     waiters := waiters s; settled := settled s; now := now s |}.

Definition settle (who : nat) (o : Outcome) (s : Server) : Server :=
  {| transports := transports s; handed := handed s; wsSent := wsSent s;
     waiters := waiters s;
     settled := settled s ++ [ {| settledCall := who; settledAt := now s; outcome := o |} ];
     now := now s |}.

(** A [tools/call] request reaches the handler. *)
Definition toolCall (who : nat) (session name : string) (arguments : option Json)
    (s : Server) : Server :=
  match callTool schemas name arguments with
  | Throws e => settle who (Rejected e) s
  | Awaits request awaited => waitForEvent who session awaited (wsSend request s)
  end.

Definition awaits (name : string) (w : Waiter) : bool := String.eqb (awaitedEvent w) name.

(** Modelled from the spec: the listener side of [waitForEvent].  A custom
    event from the page reaches every listener registered under its name;
    each of their handlers resumes with the payload. *)
Definition wsReceive (name : string) (payload : option string) (s : Server) : Server :=
  {| transports := transports s; handed := handed s; wsSent := wsSent s;
     waiters := List.filter (fun w => negb (awaits name w)) (waiters s);
     settled := settled s ++
                map (fun w => {| settledCall := caller w; settledAt := now s;
                                 outcome := Resolved (toolResult payload) |})
                    (List.filter (awaits name) (waiters s));
     now := now s |}.

Definition expired (t : nat) (w : Waiter) : bool := (deadline w <=? t)%nat.

(** Modelled from the spec: the timeout side of [waitForEvent].  When time
    has advanced by [dt], every wait whose deadline has been reached is
    rejected with the timeout error, which the handler rethrows. *)
Definition elapse (dt : nat) (s : Server) : Server :=
  let t := (now s + dt)%nat in
  {| transports := transports s; handed := handed s; wsSent := wsSent s;
     waiters := List.filter (fun w => negb (expired t w)) (waiters s);
     settled := settled s ++
                map (fun w => {| settledCall := caller w; settledAt := t;
                                 outcome := Rejected (TimeoutError (awaitedEvent w)) |})
                    (List.filter (expired t) (waiters s));
     now := t |}.

End Dispatcher.

(** *** [instrumentViteDevServer]: the [/sse] and [/messages] middlewares *)

Fixpoint containsChar (c : ascii) (s : string) : bool :=
  match s with
  | EmptyString => false
  | String d rest => Ascii.eqb c d || containsChar c rest
  end.

(** [s.split('?').pop()]: what follows the last question mark, or all of
    [s] when it has none. *)
Fixpoint splitPop (s : string) : string :=
  match s with
  | EmptyString => EmptyString
  | String c rest =>
      if containsChar "?" rest then splitPop rest
      else if Ascii.eqb c "?" then rest
      else String c rest
  end.

(** [req.url?.split('?').pop() || ''] *)
Definition queryOf (req : HttpRequest) : string :=
  match url req with
  | Some u => splitPop u
  | None => EmptyString
  end.

Inductive HttpOutcome : Type :=
| Ended (statusCode : nat) (body : string)
| HandedTo (transport : SSEServerTransport).

Record HttpResponse : Type := mkHttpResponse {
  headers : list (string * string);
  served : HttpOutcome
}.

Definition messagesHeaders : list (string * string) :=
  [ ("Access-Control-Allow-Origin"%string, "*"%string);
    ("Access-Control-Allow-Methods"%string, "POST, OPTIONS"%string);
    ("Access-Control-Allow-Headers"%string, "content-type"%string) ].

Definition sseHeaders : list (string * string) :=
  [ ("Access-Control-Allow-Origin"%string, "*"%string);
    ("Cache-Control"%string, "no-cache, no-transform"%string) ].

Definition withTransports (m : gmap string SSEServerTransport) (s : Server) : Server :=
  {| transports := m; handed := handed s; wsSent := wsSent s;
     waiters := waiters s; settled := settled s; now := now s |}.

(** The [/sse] middleware; [id] is the session id the new transport drew. *)
Definition sse (id : string) (s : Server) : HttpResponse * Server :=
  let transport := {| endpoint := "/messages"; sessionId := id |} in
  ({| headers := sseHeaders; served := HandedTo transport |},
   withTransports (<[id := transport]> (transports s)) s).

(** The [close] listener the [/sse] middleware puts on its response. *)
Definition sseClose (id : string) (s : Server) : Server :=
  withTransports (delete id (transports s)) s.

Section Routing.

(** The platform's [new URLSearchParams(query).get(name)]. *)
Variable searchParam : string -> string -> option string.

(** [!clientId || typeof clientId !== 'string'] *)
Definition noClientId (clientId : option string) : bool :=
  match clientId with
  | None => true
  | Some id => String.eqb id EmptyString
  end.

(** The [/messages] middleware. *)
Definition messages (req : HttpRequest) (s : Server) : HttpResponse * Server :=
  let respond o := {| headers := messagesHeaders; served := o |} in
  if String.eqb (method req) "OPTIONS" then (respond (Ended 204 EmptyString), s)
  else if negb (String.eqb (method req) "POST") then
    (respond (Ended 405 "Method Not Allowed"), s)
  else
    let clientId := searchParam (queryOf req) "sessionId" in
    if noClientId clientId then (respond (Ended 400 "Bad Request"), s)
    else
      match transports s !! default EmptyString clientId with
      | None => (respond (Ended 404 "Not Found"), s)
      | Some transport =>
          (respond (HandedTo transport),
           {| transports := transports s;
              handed := handed s ++ [(default EmptyString clientId, req)];
              wsSent := wsSent s; waiters := waiters s;
              settled := settled s; now := now s |})
      end.

(** The status line a client sees, when the middleware itself ends the response. *)
Definition statusOf (r : HttpResponse) : option nat :=
  match served r with
  | Ended code _ => Some code
  | HandedTo _ => None
  end.

End Routing.

(** *** Runs of the server *)

(** What reaches the server: a tool call (numbered by [who], arriving on
    [session]), a custom event from the page, the passing of time, and the
    three kinds of HTTP traffic of the middlewares. *)
Inductive Input : Type :=
| ToolCall (who : nat) (session name : string) (arguments : option Json)
| WsReceive (name : string) (payload : option string)
| Elapse (dt : nat)
| Sse (id : string)
| SseClose (id : string)
| Messages (req : HttpRequest).

Section Runs.

Variable schemas : Schemas.
Variable timeout : nat.
Variable searchParam : string -> string -> option string.

Definition step (i : Input) (s : Server) : Server :=
  match i with
  | ToolCall who session name arguments => toolCall schemas timeout who session name arguments s
  | WsReceive name payload => wsReceive name payload s
  | Elapse dt => elapse dt s
  | Sse id => snd (sse id s)
  | SseClose id => sseClose id s
  | Messages req => snd (messages searchParam req s)
  end.

Fixpoint run (inputs : list Input) (s : Server) : Server :=
  match inputs with
  | [] => s
  | i :: rest => run rest (step i s)
  end.

End Runs.

(** The settlements a given call has received. *)
Definition settlementsOf (who : nat) (s : Server) : list Settlement :=
  List.filter (fun x => (settledCall x =? who)%nat) (settled s).

(** The waits a given call is suspended in. *)
Definition waitsOf (who : nat) (s : Server) : list Waiter :=
  List.filter (fun w => (caller w =? who)%nat) (waiters s).

(** The waits in flight for a session and a response event. *)
Definition inFlight (session awaited : string) (s : Server) : list Waiter :=
  List.filter (fun w => String.eqb (owner w) session && String.eqb (awaitedEvent w) awaited)
              (waiters s).

(** An input that neither answers the wait on [awaited] nor reuses the call number [who]. *)
Definition quiet (who : nat) (awaited : string) (i : Input) : bool :=
  match i with
  | WsReceive name _ => negb (String.eqb name awaited)
  | ToolCall other _ _ _ => negb (other =? who)%nat
  | _ => true
  end.

(** Where a call stands with respect to its deadline: before it, the call
    waits and has received nothing; from it on, the call has received the
    timeout error, once, at a time not before the deadline. *)
Definition timely (who : nat) (w : Waiter) (s : Server) : Prop :=
  if (now s <? deadline w)%nat then
    settlementsOf who s = [] /\ waitsOf who s = [w]
  else
    exists t, (deadline w <= t <= now s)%nat /\
      settlementsOf who s =
        [ {| settledCall := who; settledAt := t;
             outcome := Rejected (TimeoutError (awaitedEvent w)) |} ] /\
      waitsOf who s = [].

(** *** The declared shapes of the four tools *)

Definition issue (code : string) (path : list string) (message : string) : ZodError :=
  {| errors := JArr [ JObj [ ("code"%string, JStr code);
                             ("path"%string, JArr (map JStr path));
                             ("message"%string, JStr message) ] ] |}.

Definition requiredString (key : string) (fields : list (string * Json)) : ZodError + string :=
  match assoc key fields with
  | Some (JStr s) =>
      if String.eqb s EmptyString
      then inl (issue "too_small" [key] "String must contain at least 1 character(s)")
      else inr s
  | Some _ => inl (issue "invalid_type" [key] "Expected string")
  | None => inl (issue "invalid_type" [key] "Required")
  end.

Definition requiredBool (key : string) (fields : list (string * Json)) : ZodError + bool :=
  match assoc key fields with
  | Some (JBool b) => inr b
  | Some _ => inl (issue "invalid_type" [key] "Expected boolean")
  | None => inl (issue "invalid_type" [key] "Required")
  end.

Definition optionalPositive (key : string) (fields : list (string * Json))
    : ZodError + list (string * Json) :=
  match assoc key fields with
  | None => inr []
  | Some (JNum n) =>
      if 0 <? n then inr [(key, JNum n)]
      else inl (issue "too_small" [key] "Number must be greater than 0")
  | Some _ => inl (issue "invalid_type" [key] "Expected number")
  end.

Definition notAnObject : ZodError := issue "invalid_type" [] "Expected object".

(** Modelled from the spec: [mcp/schema.js] is not in src/.  Spec 4.5
    declares [{componentName: non-empty string}] for highlight-component and
    get-component-states. *)
Definition componentNameShape (arguments : option Json) : ZodError + Json :=
  match arguments with
  | Some (JObj fields) =>
      match requiredString "componentName" fields with
      | inr s => inr (JObj [("componentName"%string, JStr s)])
      | inl e => inl e
      end
  | _ => inl notAnObject
  end.

(** Modelled from the spec: [mcp/schema.js] is not in src/.  Spec 4.5
    declares [{allComponents: bool, debugMode: bool}] for get-component-tree. *)
Definition treeOptionsShape (arguments : option Json) : ZodError + Json :=
  match arguments with
  | Some (JObj fields) =>
      match requiredBool "allComponents" fields, requiredBool "debugMode" fields with
      | inr a, inr d =>
          inr (JObj [("allComponents"%string, JBool a); ("debugMode"%string, JBool d)])
      | inl e, _ => inl e
      | _, inl e => inl e
      end
  | _ => inl notAnObject
  end.

(** Modelled from the spec: [mcp/schema.js] is not in src/.  Spec 4.5
    declares [{timeframeSeconds?: positive number, allComponents: bool,
    debugMode: bool}] for get-unnecessary-rerenders. *)
Definition rerendersOptionsShape (arguments : option Json) : ZodError + Json :=
  match arguments with
  | Some (JObj fields) =>
      match optionalPositive "timeframeSeconds" fields,
            requiredBool "allComponents" fields, requiredBool "debugMode" fields with
      | inr t, inr a, inr d =>
          inr (JObj (t ++ [("allComponents"%string, JBool a); ("debugMode"%string, JBool d)]))
      | inl e, _, _ => inl e
      | _, inl e, _ => inl e
      | _, _, inl e => inl e
      end
  | _ => inl notAnObject
  end.

(** Modelled from the spec: the four schemas of [mcp/schema.js], with the
    shapes of spec 4.5. *)
Definition declaredShapes : Schemas :=
  {| HighlightComponentSchema := componentNameShape;
     GetComponentTreeSchema := treeOptionsShape;
     GetComponentStatesSchema := componentNameShape;
     GetUnnecessaryRerendersSchema := rerendersOptionsShape |}.

(** *** The [ListToolsRequestSchema] handler *)

(** One entry of [tools].  [inputSchema] is [zodToJsonSchema] of one of the
    four schemas; [schemaSource] says which. *)
Record ToolInfo : Type := mkToolInfo {
  toolName : string;
  description : string;
  schemaSource : Schemas -> option Json -> ZodError + Json
}.

Definition listTools : list ToolInfo :=
  [ {| toolName := "highlight-component";
       description := "Highlight React component based on the component name.";
       schemaSource := HighlightComponentSchema |};
    {| toolName := "get-component-tree";
       description := "Get the React component tree of the current page in ASCII format.";
       schemaSource := GetComponentTreeSchema |};
    {| toolName := "get-component-states";
       description :=
         "Get the React component props, states, and contexts in JSON structure format.";
       schemaSource := GetComponentStatesSchema |};
    {| toolName := "get-unnecessary-rerenders";
       description := "Get the wasted re-rendered components of the current page";
       schemaSource := GetUnnecessaryRerendersSchema |} ].

(** The event an input makes the server publish, if any. *)
Definition requestOf (schemas : Schemas) (i : Input) : list WsEvent :=
  match i with
  | ToolCall _ _ name arguments =>
      match callTool schemas name arguments with
      | Awaits request _ => [request]
      | Throws _ => []
      end
  | _ => []
  end.

(** *** The endpoints announced for the server *)

Definition DEFAULT_VITE_PORT : Z := 5173.

(** [viteDevServer.httpServer?.address()]: a pipe name or an address record. *)
Inductive AddressInfo : Type :=
| PipeName (name : string)
| SocketAddress (address : string) (port : Z).

(** [config.server?.host]: a host name or a flag. *)
Inductive HostSetting : Type :=
| HostName (name : string)
| HostFlag (b : bool).

(** What the endpoint functions read of the [ViteDevServer]:
    [https] is [Boolean(config.server?.https)]; [None] stands for a
    [null] or [undefined] value. *)
Record DevServer : Type := mkDevServer {
  https : bool;
  addressInfo : option AddressInfo;
  hostConfig : option HostSetting;
  portConfig : option Z;
  resolvedLocal : option (list string);
  resolvedNetwork : option (list string)
}.

Inductive OriginType : Type :=
| local
| network.

Definition protocolOf (d : DevServer) : string :=
  if https d then "https" else "http".

(** The host [getFallbackOrigin] puts in its result. *)
Definition fallbackHost (d : DevServer) : string :=
  match addressInfo d with
  | Some (SocketAddress address port) =>
      if negb (port =? 0) then
        if String.eqb address "::" || String.eqb address "0.0.0.0"
        then "localhost" else address
      else
        match hostConfig d with
        | Some (HostName h) => if String.eqb h "0.0.0.0" then "localhost" else h
        | _ => "localhost"
        end
  | _ =>
      match hostConfig d with
      | Some (HostName h) => if String.eqb h "0.0.0.0" then "localhost" else h
      | _ => "localhost"
      end
  end.

(** The port [getFallbackOrigin] puts in its result. *)
Definition fallbackPort (d : DevServer) : Z :=
  match addressInfo d with
  | Some (SocketAddress address port) =>
      if negb (port =? 0) then port else default DEFAULT_VITE_PORT (portConfig d)
  | _ => default DEFAULT_VITE_PORT (portConfig d)
  end.

(** The second half of [getFallbackOrigin]: host and port from the configuration. *)
Definition configuredOrigin (protocol : string) (d : DevServer) : string :=
  let host :=
    match hostConfig d with
    | Some (HostName h) => if negb (String.eqb h "0.0.0.0") then h else "localhost"
    | _ => "localhost"
    end in
  let port := default DEFAULT_VITE_PORT (portConfig d) in
  protocol +:+ "://" +:+ host +:+ ":" +:+ pretty port.

Definition getFallbackOrigin (d : DevServer) : string :=
  let protocol := if https d then "https" else "http" in
  match addressInfo d with
  | Some (SocketAddress address port) =>
      if negb (port =? 0) then
        let host :=
          if String.eqb address "::" || String.eqb address "0.0.0.0"
          then "localhost" else address in
        protocol +:+ "://" +:+ host +:+ ":" +:+ pretty port
      else configuredOrigin protocol d
  | _ => configuredOrigin protocol d
  end.

Definition resolveOrigins (d : DevServer) (type : OriginType) : list string :=
  let resolved := match type with local => resolvedLocal d | network => resolvedNetwork d end in
  match resolved with
  | Some (o :: rest) => o :: rest
  | _ =>
      match type with
      | local => [getFallbackOrigin d]
      | network => []
      end
  end.

Section Endpoints.

(** The platform's [new URL(path, base).toString()], which throws on a
    base it cannot parse. *)
Variable newURL : string -> string -> Thrown + string.

(** [origins.map(f)] for an [f] that may throw: the first throw ends the map. *)
Fixpoint mapOrThrow (f : string -> Thrown + string) (l : list string)
    : Thrown + list string :=
  match l with
  | [] => inr []
  | x :: rest =>
      match f x with
      | inl e => inl e
      | inr y =>
          match mapOrThrow f rest with
          | inl e => inl e
          | inr ys => inr (y :: ys)
          end
      end
  end.

Definition buildEndpointUrls (origins : list string) (pathname : string)
    : Thrown + list string :=
  let normalizedPath :=
    if JsString.startsWith "/" pathname then JsString.slice1 pathname else pathname in
  mapOrThrow (fun origin => newURL normalizedPath origin) origins.

Record McpServerEndpoints : Type := mkEndpoints {
  sseLocal : list string;
  sseNetwork : list string;
  messagesLocal : list string;
  messagesNetwork : list string
}.

Definition getMcpServerEndpoints (d : DevServer) : Thrown + McpServerEndpoints :=
  let localOrigins := resolveOrigins d local in
  let networkOrigins := resolveOrigins d network in
  match buildEndpointUrls localOrigins "/sse" with
  | inl e => inl e
  | inr sl =>
      match buildEndpointUrls networkOrigins "/sse" with
      | inl e => inl e
      | inr sn =>
          match buildEndpointUrls localOrigins "/messages" with
          | inl e => inl e
          | inr ml =>
              match buildEndpointUrls networkOrigins "/messages" with
              | inl e => inl e
              | inr mn =>
                  inr {| sseLocal := sl; sseNetwork := sn;
                         messagesLocal := ml; messagesNetwork := mn |}
              end
          end
      end
  end.

End Endpoints.

(** Every registered transport sits under its own session id and posts to [/messages]. *)
Definition registryConsistent (s : Server) : Prop :=
  forall id t, transports s !! id = Some t ->
    sessionId t = id /\ endpoint t = "/messages"%string.

(** Every request handed to a transport is a POST naming that session in its query. *)
Definition handedArePosts (searchParam : string -> string -> option string)
    (s : Server) : Prop :=
  forall id req, (id, req) ∈ handed s ->
    method req = "POST"%string /\ id <> EmptyString /\
    searchParam (queryOf req) "sessionId" = Some id.

(** A server that is not listening yet, configured for port 3001. *)
Definition exampleDevServer : DevServer :=
  {| https := false; addressInfo := None;
     hostConfig := Some (HostFlag true); portConfig := Some 3001;
     resolvedLocal := None; resolvedNetwork := None |}.

(** [new URL(path, origin).toString()] on an origin that has no path of
    its own and a relative [path]. *)
Definition originUrl (path origin : string) : Thrown + string :=
  inr (origin +:+ "/" +:+ path).

(** The time that passes during a run. *)
Fixpoint elapsedTime (inputs : list Input) : nat :=
  match inputs with
  | [] => 0
  | Elapse dt :: rest => dt + elapsedTime rest
  | _ :: rest => elapsedTime rest
  end.

End Mcp.

(** ** The two sides joined by the dev server's websocket *)

Module Bridge.

(** [JSON.parse] on the one text [JSON.stringify] gives for [j], where it
    returns [j]; any other text stands for a syntax error.  It instantiates
    the platform's parser where an example needs one. *)
Definition parseOf (j : Json) (text : string) : Thrown + Json :=
  if String.eqb text (stringify j) then inr j
  else inl (ThrownError "Unexpected token").

Section Bridge.

Variable schemas : Mcp.Schemas.
Variable timeout : nat.
Variable JSON_parse : string -> Thrown + Json.
Variable highlightComponent : string -> Thrown + list nat.
Variable getComponentTree : Json -> Thrown + Overlay.JsValue.
Variable getComponentStates : string -> Thrown + Overlay.JsValue.
Variable getUnnecessaryRenderedComponents :
  option Json -> bool -> bool -> Thrown + Overlay.JsValue.

(** The events the page sends when a custom event of the server reaches it. *)
Definition pageAnswers (request : Mcp.WsEvent) : list Overlay.HotEvent :=
  concat (map Overlay.sent
              (Overlay.deliver JSON_parse highlightComponent getComponentTree
                 getComponentStates getUnnecessaryRenderedComponents
                 true (Mcp.event request) (Mcp.data request))).

(** The page's events reach the server in the order they were sent. *)
Fixpoint relay (answers : list Overlay.HotEvent) (s : Mcp.Server) : Mcp.Server :=
  match answers with
  | [] => s
  | a :: rest => relay rest (Mcp.wsReceive (Overlay.event a) (Overlay.data a) s)
  end.

(** A tool call, the page's reaction to its request event, and the delivery
    of that reaction to the waiting handlers. *)
Definition callThroughBridge (who : nat) (session name : string)
    (arguments : option Json) (s : Mcp.Server) : Mcp.Server :=
  let s1 := Mcp.toolCall schemas timeout who session name arguments s in
  match Mcp.callTool schemas name arguments with
  | Mcp.Awaits request _ => relay (pageAnswers request) s1
  | Mcp.Throws _ => s1
  end.

End Bridge.

(** Is [result] the record [{highlightedCount: n}] for some integer [n],
    as a text content carries a record? *)
Definition isHighlightedCount (result : Mcp.CallToolResult) : Prop :=
  exists n : Z,
    Mcp.text result = Some (stringify (JObj [("highlightedCount"%string, JNum n)])).

End Bridge.

(** ** [src/index.ts]: the Vite plugin *)

Module Plugin.

Import JsString.

Definition viteReactMcpResourceSymbol : string := "?__vite-react-mcp-resource".
Definition viteReactMcpImportee : string := "virtual:vite-react-mcp".
Definition resolvedViteReactMcp : string := String "000" viteReactMcpImportee.

(** *** [readProjectConfig] *)

(** What [fs] finds at the configuration path. *)
Inductive ConfigFile : Type :=
| Missing
| Readable (content : string)
| Unreadable (e : Thrown).

Record Patterns : Type := mkPatterns {
  include : list Json;
  exclude : list Json
}.

(** The default fallback patterns. *)
Definition defaultPatterns : Patterns :=
  {| include := [JStr "src/**/*.{js,jsx,ts,tsx}"];
     exclude := [JStr "**/node_modules/**"] |}.

Definition notAFunction (what : string) : Thrown :=
  ThrownError (what +:+ " is not a function").

(** [pattern.includes(text)] on a parsed value: a substring test on a
    string, a membership test on an array, a [TypeError] on anything else. *)
Definition patternIncludes (text : string) (pattern : Json) : Thrown + bool :=
  match pattern with
  | JStr s => inr (includes text s)
  | JArr items =>
      inr (existsb (fun item => match item with
                                | JStr t => String.eqb t text
                                | _ => false
                                end) items)
  | _ => inl (notAFunction "pattern.includes")
  end.

(** The callback of [include.map]. *)
Definition toGlob (pattern : Json) : Thrown + Json :=
  match patternIncludes "*" pattern with
  | inl e => inl e
  | inr true => inr pattern
  | inr false =>
      match pattern with
      | JStr s =>
          if endsWith "/" s
          then inr (JStr (s +:+ "**/*.{js,jsx,ts,tsx}"))
          else inr (JStr (s +:+ "/**/*.{js,jsx,ts,tsx}"))
      | _ => inl (notAFunction "pattern.endsWith")
      end
  end.

(** [items.map(toGlob)] *)
Fixpoint mapToGlob (items : list Json) : Thrown + list Json :=
  match items with
  | [] => inr []
  | p :: rest =>
      match toGlob p with
      | inl e => inl e
      | inr g =>
          match mapToGlob rest with
          | inl e => inl e
          | inr gs => inr (g :: gs)
          end
      end
  end.

(** [items.some(pattern => pattern.includes('node_modules'))]: it stops at
    the first pattern that does. *)
Fixpoint someNodeModules (items : list Json) : Thrown + bool :=
  match items with
  | [] => inr false
  | p :: rest =>
      match patternIncludes "node_modules" p with
      | inl e => inl e
      | inr true => inr true
      | inr false => someNodeModules rest
      end
  end.

(** [value || []] *)
Definition orEmptyArray (value : option Json) : Json :=
  match value with
  | Some v => if truthy value then v else JArr []
  | None => JArr []
  end.

(** The body of the [try] once the file has been read. *)
Definition patternsOfConfig (config : Json) : Thrown + Patterns :=
  match getMember config "include" with
  | inl e => inl e
  | inr includeValue =>
      let include0 := orEmptyArray includeValue in
      let exclude0 := orEmptyArray (getMemberOpt config "exclude") in
      match include0 with
      | JArr items =>
          match mapToGlob items with
          | inl e => inl e
          | inr globs =>
              match exclude0 with
              | JArr excluded =>
                  match someNodeModules excluded with
                  | inl e => inl e
                  | inr true => inr {| include := globs; exclude := excluded |}
                  | inr false =>
                      inr {| include := globs;
                             exclude := excluded ++ [JStr "**/node_modules/**"] |}
                  end
              | _ => inl (notAFunction "exclude.some")
              end
          end
      | _ => inl (notAFunction "include.map")
      end
  end.

(** The glob [toGlob] makes of a pattern that is a string. *)
Definition globOf (pattern : string) : string :=
  if includes "*" pattern then pattern
  else if endsWith "/" pattern then pattern +:+ "**/*.{js,jsx,ts,tsx}"
  else pattern +:+ "/**/*.{js,jsx,ts,tsx}".

(** A parsed value that is neither a string nor an array. *)
Definition neitherStringNorArray (pattern : Json) : bool :=
  match pattern with
  | JStr _ => false
  | JArr _ => false
  | _ => true
  end.

Section ReadProjectConfig.

(** The platform's [JSON.parse]. *)
Variable JSON_parse : string -> Thrown + Json.

(** [readProjectConfig(configPath)], given what is at [configPath].  A
    throw inside the [try] is caught (and reported on the console); the
    function then returns the default patterns. *)
Definition readProjectConfig (file : ConfigFile) : Patterns :=
  match file with
  | Missing => defaultPatterns
  | Unreadable _ => defaultPatterns
  | Readable configContent =>
      match JSON_parse configContent with
      | inl _ => defaultPatterns
      | inr config =>
          match patternsOfConfig config with
          | inl _ => defaultPatterns
          | inr patterns => patterns
          end
      end
  end.

End ReadProjectConfig.

(** *** The hooks of the plugin *)

(** [resolveId(importee)]; [None] is [undefined]. *)
Definition resolveId (viteReactMcpPath importee : string) : option string :=
  if String.eqb importee viteReactMcpImportee then Some resolvedViteReactMcp
  else if startsWith (viteReactMcpImportee +:+ ":") importee then
    let resolved :=
      replace (viteReactMcpImportee +:+ ":") (viteReactMcpPath +:+ "/") importee in
    Some (resolved +:+ viteReactMcpResourceSymbol)
  else None.

(** [/\.[jt]sx?$/.test(id)] *)
Definition isScript (id : string) : bool :=
  endsWith ".js" id || endsWith ".ts" id || endsWith ".jsx" id || endsWith ".tsx" id.

(** What [babel.transformSync] returns. *)
Record Transformed : Type := mkTransformed {
  code : string;
  map : option string
}.

Section Transform.

(** [createFilter(include, exclude)] of [@rollup/pluginutils]. *)
Variable filter : string -> bool.

(** [babel.transformSync(code, options)]: the options vary with the file
    name and with whether [@babel/preset-react] is installed; a [null]
    result makes reading [result.code] throw, which [inl] covers. *)
Variable transformSync : string -> string -> bool -> Thrown + Transformed.

(** [transformBabelCollectName(code, id)], the [transform] hook; [None] is [null]. *)
Definition transformBabelCollectName (presetReactInstalled : bool)
    (source id : string) : option Transformed :=
  if negb (filter id) || negb (isScript id) then None
  else
    match transformSync source id presetReactInstalled with
    | inr result => Some result
    | inl _ => None
    end.

End Transform.

(** The message [configureServer] logs a second after start-up.  The
    [local] list of the metadata is an array, never [null] or [undefined],
    so [??] keeps it. *)
Definition announcement (endpoints : Mcp.McpServerEndpoints) (d : Mcp.DevServer) : string :=
  let announcedEndpoints := Mcp.sseLocal endpoints in
  if (0 <? length announcedEndpoints)%nat
  then joinWith ", " announcedEndpoints
  else "http://localhost:" +:+ pretty (default 5173 (Mcp.portConfig d)) +:+ "/sse".

End Plugin.

(** * Properties *)

(** ** The commit store *)

Section CommitStore.

Import Overlay.

Lemma traverse_update_only (fibers : list (Fiber * Phase)) (s : Store) :
  traverseRenderedFibers fibers onRenderedFiber s =
  {| currentCommitFrameId := currentCommitFrameId s;
     classifications :=
       classifications s ++
       map (classificationOf (currentCommitFrameId s))
           (updatedFibers {| renderId := 0; root := 0; rendered := fibers |}) |}.
Proof.
  revert s. induction fibers as [|[f ph] rest IH]; intros s.
  - destruct s; cbn. by rewrite app_nil_r.
  - cbn [traverseRenderedFibers]. rewrite IH. unfold updatedFibers. cbn.
    destruct ph; cbn; try reflexivity.
    by rewrite <- app_assoc.
Qed.

Lemma onCommitFiberRoot_store (c : Commit) (t : Tracking) :
  store (onCommitFiberRoot c t) =
  {| currentCommitFrameId := currentCommitFrameId (store t) + 1;
     classifications :=
       classifications (store t) ++
       map (classificationOf (currentCommitFrameId (store t))) (updatedFibers c) |}.
Proof.
  unfold onCommitFiberRoot. cbn. rewrite traverse_update_only. by destruct c.
Qed.

Lemma commitIds_length (commits : list Commit) (t : Tracking) :
  length (commitIds commits t) = length commits.
Proof.
  revert t. induction commits as [|c rest IH]; intros t; cbn; [done|]. by rewrite IH.
Qed.

Lemma commitIds_lookup (commits : list Commit) (t : Tracking) (i : nat) (a : Z) :
  commitIds commits t !! i = Some a ->
  a = currentCommitFrameId (store t) + Z.of_nat i.
Proof.
  revert t i. induction commits as [|c rest IH]; intros t i H; [done|].
  destruct i as [|i]; cbn in H.
  - injection H as <-. lia.
  - apply IH in H. rewrite onCommitFiberRoot_store in H. cbn in H. lia.
Qed.

Lemma commitIds_sorted (commits : list Commit) (t : Tracking) :
  StronglySorted Z.lt (commitIds commits t).
Proof.
  revert t. induction commits as [|c rest IH]; intros t; cbn; constructor; [apply IH|].
  apply List.Forall_forall. intros a Ha.
  apply (proj2 (list_elem_of_In _ _)) in Ha. apply list_elem_of_lookup in Ha as [i Hi].
  apply commitIds_lookup in Hi. rewrite onCommitFiberRoot_store in Hi. cbn in Hi. lia.
Qed.

Lemma updatedFibers_spec (c : Commit) (f : Fiber) :
  f ∈ updatedFibers c <-> (f, update) ∈ rendered c.
Proof.
  unfold updatedFibers. rewrite list_elem_of_fmap. split.
  - intros [[g ph] [-> Hin]]. apply (proj1 (list_elem_of_In _ _)) in Hin.
    apply filter_In in Hin as [Hin Hph]. cbn in *. destruct ph; try discriminate.
    by apply list_elem_of_In.
  - intros Hin. exists (f, update). split; [done|].
    apply list_elem_of_In, filter_In. split; [by apply list_elem_of_In|done].
Qed.



End CommitStore.

(** ** The commit counter as a number *)

Section CommitCounter.

Import Overlay.

Lemma plusOne_exact (n : Z) : - 2 ^ 53 <= n < 2 ^ 53 -> plusOne n = n + 1.
Proof.
  intros Hn. unfold plusOne, roundToNumber. cbv zeta.
  destruct (Z.abs (n + 1) <? 2 ^ 53) eqn:Hsmall; [reflexivity|].
  apply Z.ltb_ge in Hsmall.
  assert (n = 2 ^ 53 - 1) as -> by lia.
  by vm_compute.
Qed.

Lemma plusOne_top : plusOne (2 ^ 53) = 2 ^ 53.
Proof. by vm_compute. Qed.

Lemma onCommitFiberRootJs_store (c : Commit) (t : Tracking) :
  store (onCommitFiberRootJs c t) =
  {| currentCommitFrameId := plusOne (currentCommitFrameId (store t));
     classifications :=
       classifications (store t) ++
       List.map (classificationOf (currentCommitFrameId (store t))) (updatedFibers c) |}.
Proof.
  unfold onCommitFiberRootJs. cbn [store]. rewrite traverse_update_only. by destruct c.
Qed.

Lemma onCommitFiberRootJs_exact (c : Commit) (t : Tracking) :
  - 2 ^ 53 <= currentCommitFrameId (store t) < 2 ^ 53 ->
  onCommitFiberRootJs c t = onCommitFiberRoot c t.
Proof.
  intros Hn.
  assert (Hs : store (onCommitFiberRootJs c t) = store (onCommitFiberRoot c t)).
  { rewrite onCommitFiberRootJs_store, onCommitFiberRoot_store. by rewrite plusOne_exact. }
  unfold onCommitFiberRootJs, onCommitFiberRoot in *. cbn [store] in Hs. by rewrite Hs.
Qed.

Lemma commitIdsJs_length (commits : list Commit) (t : Tracking) :
  length (commitIdsJs commits t) = length commits.
Proof.
  revert t. induction commits as [|c rest IH]; intros t; cbn; [done|]. by rewrite IH.
Qed.

(** The counter climbs by one per commit until it reaches 2^53, where it stays. *)
Lemma commitIdsJs_lookup (commits : list Commit) (t : Tracking) (k : nat) (a : Z) :
  - 2 ^ 53 <= currentCommitFrameId (store t) <= 2 ^ 53 ->
  commitIdsJs commits t !! k = Some a ->
  a = Z.min (currentCommitFrameId (store t) + Z.of_nat k) (2 ^ 53).
Proof.
  revert t k. induction commits as [|c rest IH]; intros t k Hn H; [done|].
  destruct k as [|k]; cbn in H.
  - injection H as <-. lia.
  - apply IH in H; rewrite onCommitFiberRootJs_store in *; cbn [currentCommitFrameId] in *.
    + destruct (decide (currentCommitFrameId (store t) = 2 ^ 53)) as [Htop|Hlow].
      * rewrite Htop, plusOne_top in H. lia.
      * rewrite plusOne_exact in H by lia. lia.
    + destruct (decide (currentCommitFrameId (store t) = 2 ^ 53)) as [Htop|Hlow].
      * rewrite Htop, plusOne_top. lia.
      * rewrite plusOne_exact by lia. lia.
Qed.

Lemma commitIdsJs_exact (commits : list Commit) (t : Tracking) :
  - 2 ^ 53 <= currentCommitFrameId (store t) ->
  currentCommitFrameId (store t) + Z.of_nat (length commits) <= 2 ^ 53 + 1 ->
  commitIdsJs commits t = commitIds commits t.
Proof.
  revert t. induction commits as [|c rest IH]; intros t Hlow Hhigh; [done|].
  cbn [commitIdsJs commitIds]. f_equal.
  destruct rest as [|c' rest]; [done|].
  cbn [length] in Hhigh.
  rewrite <- (onCommitFiberRootJs_exact c t) by lia.
  apply IH; rewrite onCommitFiberRootJs_store; cbn [currentCommitFrameId length];
    rewrite plusOne_exact by lia; lia.
Qed.

(** C2, as the code has it.  As long as the counter stays where a number
    counts exactly (it starts at an integer not below -2^53 and the last id
    handed out is at most 2^53), every commit gets an id, the ids are
    strictly increasing, and two commits compare by id exactly as they
    compare by arrival; the ids are those of the integer counter. *)
Theorem commit_ids_follow_arrival_order_below_2_53
    (commits : list Commit) (t : Tracking) :
  - 2 ^ 53 <= currentCommitFrameId (store t) ->
  currentCommitFrameId (store t) + Z.of_nat (length commits) <= 2 ^ 53 + 1 ->
  length (commitIdsJs commits t) = length commits /\
  StronglySorted Z.lt (commitIdsJs commits t) /\
  (forall i j a b,
      commitIdsJs commits t !! i = Some a ->
      commitIdsJs commits t !! j = Some b ->
      ((i < j)%nat <-> a < b)) /\
  commitIdsJs commits t = commitIds commits t.
Proof.
  intros Hlow Hhigh. rewrite (commitIdsJs_exact commits t Hlow Hhigh).
  split; [apply commitIds_length|]. split; [apply commitIds_sorted|]. split; [|done].
  intros i j a b Ha Hb. apply commitIds_lookup in Ha, Hb. lia.
Qed.

(** What the hook does to [fiberRoots] does not involve the counter. *)
Lemma ingestJs_fiberRoots (commits : list Commit) (t t' : Tracking) :
  fiberRoots t = fiberRoots t' ->
  fiberRoots (ingestJs commits t) = fiberRoots (ingest commits t').
Proof.
  revert t t'. induction commits as [|c rest IH]; intros t t' Hroots; [done|].
  cbn [ingestJs ingest]. apply IH.
  unfold onCommitFiberRootJs, onCommitFiberRoot. cbn [fiberRoots]. by rewrite Hroots.
Qed.

(** Below 2^53 the two readings of the hook are one. *)
Lemma ingestJs_exact (commits : list Commit) (t : Tracking) :
  - 2 ^ 53 <= currentCommitFrameId (store t) ->
  currentCommitFrameId (store t) + Z.of_nat (length commits) <= 2 ^ 53 ->
  ingestJs commits t = ingest commits t.
Proof.
  revert t. induction commits as [|c rest IH]; intros t Hlow Hhigh; [done|].
  cbn [ingestJs ingest length] in *.
  rewrite (onCommitFiberRootJs_exact c t) by lia.
  apply IH; rewrite onCommitFiberRoot_store; cbn [currentCommitFrameId]; lia.
Qed.

(** Whatever the counter, a classification is made for a fiber that a
    commit rendered in the update phase, under the id of that commit. *)
Lemma ingestJs_classifications (commits : list Commit) (t : Tracking) (r : Classified) :
  r ∈ classifications (store (ingestJs commits t)) <->
  r ∈ classifications (store t) \/
  exists k c f id, commits !! k = Some c /\ commitIdsJs commits t !! k = Some id /\
                   (f, update) ∈ rendered c /\ r = classificationOf id f.
Proof.
  revert t. induction commits as [|c rest IH]; intros t; cbn [ingestJs commitIdsJs].
  - split; [by left|]. intros [H|(k & c & f & id & H & _)]; [done|]. by destruct k.
  - rewrite IH, onCommitFiberRootJs_store. cbn [classifications].
    rewrite elem_of_app, list_elem_of_fmap. split.
    + intros [[H|(f & -> & Hf)]|(k & c' & f & id & Hk & Hid & Hf & ->)].
      * by left.
      * right. exists 0%nat, c, f, (currentCommitFrameId (store t)).
        by rewrite <- updatedFibers_spec.
      * right. by exists (S k), c', f, id.
    + intros [H|(k & c' & f & id & Hk & Hid & Hf & ->)]; [by left; left|].
      destruct k as [|k]; cbn in Hk, Hid.
      * injection Hk as <-. injection Hid as <-. left; right. exists f.
        by rewrite updatedFibers_spec.
      * right. by exists k, c', f, id.
Qed.

(** The bound is the exact one: with one more commit, the last two ids are equal. *)
Lemma commit_ids_repeat_past_2_53 (commits : list Commit) (t : Tracking) :
  - 2 ^ 53 <= currentCommitFrameId (store t) <= 2 ^ 53 ->
  2 ^ 53 + 1 < currentCommitFrameId (store t) + Z.of_nat (length commits) ->
  exists i,
    commitIdsJs commits t !! i = Some (2 ^ 53) /\
    commitIdsJs commits t !! S i = Some (2 ^ 53).
Proof.
  intros Hn Hlong.
  set (i := Z.to_nat (2 ^ 53 - currentCommitFrameId (store t))). exists i.
  assert (Hi : (S i < length (commitIdsJs commits t))%nat)
    by (rewrite commitIdsJs_length; lia).
  destruct (lookup_lt_is_Some_2 (commitIdsJs commits t) i) as [a Ha]; [lia|].
  destruct (lookup_lt_is_Some_2 (commitIdsJs commits t) (S i)) as [b Hb]; [lia|].
  rewrite Ha, Hb.
  apply commitIdsJs_lookup in Ha, Hb; [|done..].
  split; f_equal; lia.
Qed.

End CommitCounter.

(** C2 on three commits ingested from counter 0. *)
Lemma commit_ids_follow_arrival_order_below_2_53_witness :
  let commits :=
    [ {| Overlay.renderId := 1; Overlay.root := 10; Overlay.rendered := [] |};
      {| Overlay.renderId := 1; Overlay.root := 10; Overlay.rendered := [] |};
      {| Overlay.renderId := 2; Overlay.root := 11; Overlay.rendered := [] |} ] in
  let t := Overlay.startTracking 0 in
  length (Overlay.commitIdsJs commits t) = length commits /\
  StronglySorted Z.lt (Overlay.commitIdsJs commits t) /\
  (forall i j a b,
      Overlay.commitIdsJs commits t !! i = Some a ->
      Overlay.commitIdsJs commits t !! j = Some b ->
      ((i < j)%nat <-> a < b)) /\
  Overlay.commitIdsJs commits t = Overlay.commitIds commits t.
Proof.
  apply (commit_ids_follow_arrival_order_below_2_53
           [ {| Overlay.renderId := 1; Overlay.root := 10; Overlay.rendered := [] |};
             {| Overlay.renderId := 1; Overlay.root := 10; Overlay.rendered := [] |};
             {| Overlay.renderId := 2; Overlay.root := 11; Overlay.rendered := [] |} ]
           (Overlay.startTracking 0)); by vm_compute.
Defined.

(** C2 as stated fails: three commits ingested from counter 2^53 - 1 get
    the ids 2^53 - 1, 2^53 and 2^53, the second and the third the same. *)
Lemma commit_ids_repeat_at_2_53 :
  let commit := {| Overlay.renderId := 1; Overlay.root := 10; Overlay.rendered := [] |} in
  let ids := Overlay.commitIdsJs [commit; commit; commit] (Overlay.startTracking (2 ^ 53 - 1)) in
  ids = [2 ^ 53 - 1; 2 ^ 53; 2 ^ 53] /\
  ids !! 1%nat = Some 9007199254740992 /\
  ids !! 2%nat = Some 9007199254740992 /\
  ~ StronglySorted Z.lt ids.
Proof.
  assert (Hids : Overlay.commitIdsJs
                   [ {| Overlay.renderId := 1; Overlay.root := 10; Overlay.rendered := [] |};
                     {| Overlay.renderId := 1; Overlay.root := 10; Overlay.rendered := [] |};
                     {| Overlay.renderId := 1; Overlay.root := 10; Overlay.rendered := [] |} ]
                   (Overlay.startTracking (2 ^ 53 - 1)) =
                 [9007199254740991; 9007199254740992; 9007199254740992]) by (by vm_compute).
  cbv zeta. rewrite Hids. repeat split.
  intros Hsorted. apply StronglySorted_inv in Hsorted as [Hrest _].
  apply StronglySorted_inv in Hrest as [_ Hlt].
  apply Forall_inv in Hlt. lia.
Qed.

(** ** The tool surface installed by [init] *)

Section ToolSurface.

Import JsObject Overlay.

Lemma init_when_present (r : Realm) :
  hasOwn (target r) __VITE_REACT_MCP_TOOLS__ = true -> init r = inr r.
Proof. intros H. unfold init. by rewrite H. Qed.

Lemma init_when_absent (r r' : Realm) :
  hasOwn (target r) __VITE_REACT_MCP_TOOLS__ = false ->
  init r = inr r' ->
  let ref := fresh (dom (heap r)) in
  r' = {| target := {| props := <[__VITE_REACT_MCP_TOOLS__ := installedProperty ref]>
                                  (props (target r));
                       extensible := true |};
          heap := <[ref := toolsLiteral]> (heap r) |}.
Proof.
  intros Habsent Hinit. unfold init in Hinit. rewrite Habsent in Hinit.
  unfold alloc, defineProperty in Hinit. cbn in Hinit.
  unfold hasOwn in Habsent.
  destruct (props (target r) !! __VITE_REACT_MCP_TOOLS__); [done|].
  destruct (extensible (target r)); [|done].
  by injection Hinit as <-.
Qed.

Lemma hasOwn_after_init (r r' : Realm) :
  init r = inr r' -> hasOwn (target r') __VITE_REACT_MCP_TOOLS__ = true.
Proof.
  intros Hinit. destruct (hasOwn (target r) __VITE_REACT_MCP_TOOLS__) eqn:E.
  - rewrite (init_when_present r E) in Hinit. by injection Hinit as <-.
  - rewrite (init_when_absent r r' E Hinit). unfold hasOwn. cbn.
    by rewrite lookup_insert_eq.
Qed.

(** C10, as the code has it.  [init] changes nothing when [target] already
    owns the property, and running it again after it succeeded changes
    nothing.  When it installs the property, the property is non-writable
    (and configurable, not enumerable) and refers to a fresh object holding
    the four tool functions; an assignment to
    [target.__VITE_REACT_MCP_TOOLS__] then throws and leaves the page as it is. *)
Theorem init_installs_once_non_writable (r : Realm) :
  (hasOwn (target r) __VITE_REACT_MCP_TOOLS__ = true -> init r = inr r) /\
  (forall r', init r = inr r' -> init r' = inr r') /\
  (forall r', hasOwn (target r) __VITE_REACT_MCP_TOOLS__ = false -> init r = inr r' ->
     exists ref,
       props (target r') !! __VITE_REACT_MCP_TOOLS__ = Some (installedProperty ref) /\
       heap r' !! ref = Some toolsLiteral /\
       installedTool r' "highlightComponent" = VFunction "highlightComponent" /\
       installedTool r' "getComponentTree" = VFunction "getComponentTree" /\
       installedTool r' "getComponentStates" = VFunction "getComponentStates" /\
       installedTool r' "getUnnecessaryRenderedComponents" = VFunction "queryWastedRender" /\
       forall v, exists e, assignMember r' Global __VITE_REACT_MCP_TOOLS__ v = inl e).
Proof.
  split; [apply init_when_present|]. split.
  - intros r' Hinit. apply init_when_present. by apply (hasOwn_after_init r).
  - intros r' Habsent Hinit. pose proof (init_when_absent r r' Habsent Hinit) as Hr'.
    cbn zeta in Hr'. set (ref := fresh (dom (heap r))) in Hr'. exists ref.
    assert (Hprop : props (target r') !! __VITE_REACT_MCP_TOOLS__ = Some (installedProperty ref))
      by (subst r'; cbn; apply lookup_insert_eq).
    assert (Hobj : heap r' !! ref = Some toolsLiteral)
      by (subst r'; cbn; apply lookup_insert_eq).
    assert (Htool : forall name,
               installedTool r' name =
               match props toolsLiteral !! name with Some q => value q | None => VUndefined end).
    { intros name. unfold installedTool, readMember. cbn [objectAt].
      rewrite Hprop. cbn. by rewrite Hobj. }
    repeat split; try done; try (rewrite Htool; reflexivity).
    intros v. unfold assignMember, assign. cbn [objectAt]. rewrite Hprop. cbn. eauto.
Qed.

(** C10 as stated fails: on a page where [init] has just installed the
    tools, assigning to a member of the installed object replaces a tool
    function; only the property of [target] is protected. *)
Lemma tool_function_reassigned_after_init :
  exists r1 ref r2,
    hasOwn (target emptyPage) __VITE_REACT_MCP_TOOLS__ = false /\
    init emptyPage = inr r1 /\
    props (target r1) !! __VITE_REACT_MCP_TOOLS__ = Some (installedProperty ref) /\
    installedTool r1 "highlightComponent" = VFunction "highlightComponent" /\
    assignMember r1 (At ref) "highlightComponent" (VFunction "replacement") = inr r2 /\
    installedTool r2 "highlightComponent" = VFunction "replacement".
Proof.
  destruct (init emptyPage) as [e|r1] eqn:Hinit; [by vm_compute in Hinit|].
  destruct (assignMember r1 (At 0) "highlightComponent" (VFunction "replacement"))
    as [e|r2] eqn:Hassign.
  { exfalso. vm_compute in Hinit. injection Hinit as <-. by vm_compute in Hassign. }
  exists r1, 0%nat, r2.
  vm_compute in Hinit. injection Hinit as <-.
  vm_compute in Hassign. injection Hassign as <-.
  repeat split; by vm_compute.
Qed.

End ToolSurface.

(** ** The listeners in the page *)

Section PageListeners.

Import Overlay.

Variable JSON_parse : string -> Thrown + Json.
Variable getUnnecessaryRenderedComponents : option Json -> bool -> bool -> Thrown + JsValue.

(** C8.  When the request deserializes, the tool returns, and
    [JSON.stringify] throws on what it returned, the listener completes
    without throwing and has sent exactly one event,
    [get-unnecessary-rerenders-response], whose payload is the JSON text of
    [{error: message}]. *)
Theorem unserializable_result_answered_with_error
    (payload : string) (d : Json) (timeframe : option Json)
    (wastedRenders : JsValue) (error : Thrown) :
  JSON_parse payload = inr d ->
  getMember d "timeframe" = inr timeframe ->
  getUnnecessaryRenderedComponents timeframe
    (truthy (getMemberOpt d "allComponents"))
    (truthy (getMemberOpt d "debugMode")) = inr wastedRenders ->
  JSON_stringify wastedRenders = inl error ->
  onGetUnnecessaryRerenders JSON_parse getUnnecessaryRenderedComponents payload =
  {| sent := [ {| event := "get-unnecessary-rerenders-response";
                  data := Some (stringify (JObj [("error"%string,
                                                  JStr (errorMessage error))])) |} ];
     thrown := None |}.
Proof.
  intros Hparse Hmember Htool Hstringify.
  unfold onGetUnnecessaryRerenders, deserialize.
  by rewrite Hparse, Hmember, Htool, Hstringify.
Qed.

End PageListeners.

(** C8 on a request [{}] whose result holds a cycle. *)
Lemma unserializable_result_answered_with_error_witness :
  Overlay.onGetUnnecessaryRerenders (Bridge.parseOf (JObj []))
    (fun _ _ _ =>
       inr (Overlay.Unserializable (ThrownError "Converting circular structure to JSON")))
    (stringify (JObj [])) =
  {| Overlay.sent :=
       [ {| Overlay.event := "get-unnecessary-rerenders-response";
            Overlay.data :=
              Some (stringify (JObj [("error"%string,
                                      JStr "Converting circular structure to JSON")])) |} ];
     Overlay.thrown := None |}.
Proof.
  apply (unserializable_result_answered_with_error
           (Bridge.parseOf (JObj []))
           (fun _ _ _ =>
              inr (Overlay.Unserializable
                     (ThrownError "Converting circular structure to JSON")))
           (stringify (JObj [])) (JObj []) None
           (Overlay.Unserializable (ThrownError "Converting circular structure to JSON"))
           (ThrownError "Converting circular structure to JSON"));
    reflexivity.
Defined.

(** ** Tool calls across the bridge *)

Section ToolCalls.

Import Mcp.

Variable schemas : Schemas.
Variable timeout : nat.

Lemma settled_by_response (w : Waiter) (name : string) (payload : option string) (s : Server) :
  w ∈ waiters s -> awaitedEvent w = name ->
  {| settledCall := caller w; settledAt := now s;
     outcome := Resolved (toolResult payload) |} ∈ settled (wsReceive name payload s).
Proof.
  intros Hw Hname. unfold wsReceive. cbn. apply elem_of_app. right.
  apply list_elem_of_fmap. exists w. split; [done|].
  apply list_elem_of_In, filter_In. split; [by apply list_elem_of_In|].
  unfold awaits. by apply String.eqb_eq.
Qed.

Section Highlight.

Variable JSON_parse : string -> Thrown + Json.
Variable highlightComponent : string -> Thrown + list nat.
Variable getComponentTree : Json -> Thrown + Overlay.JsValue.
Variable getComponentStates : string -> Thrown + Overlay.JsValue.
Variable getUnnecessaryRenderedComponents :
  option Json -> bool -> bool -> Thrown + Overlay.JsValue.

(** C9, as the code has it.  A highlight-component call whose arguments
    pass the schema, and whose request the page deserializes to an object
    with a string [componentName], is answered with a text content: the
    sentence counting the highlighted components when there are some,
    [Action failed] when there are none, and the error message when the
    tool threw. *)
Theorem highlight_result_is_the_page_sentence
    (who : nat) (session : string) (arguments : option Json)
    (args d : Json) (componentName : string) (s : Server) :
  HighlightComponentSchema schemas arguments = inr args ->
  JSON_parse (stringify args) = inr d ->
  getMemberOpt d "componentName" = Some (JStr componentName) ->
  {| settledCall := who; settledAt := now s;
     outcome :=
       Resolved
         {| text :=
              Some match highlightComponent componentName with
                   | inr components =>
                       if (0 <? length components)%nat
                       then "Found and highlighted " +:+ pretty (length components)
                            +:+ " components"
                       else "Action failed"
                   | inl error => "Error: " +:+ errorMessage error
                   end |} |}
  ∈ settled
      (Bridge.callThroughBridge schemas timeout JSON_parse highlightComponent
         getComponentTree getComponentStates getUnnecessaryRenderedComponents
         who session "highlight-component" arguments s).
Proof.
  intros Hschema Hparse Hname.
  unfold Bridge.callThroughBridge, toolCall.
  change (callTool schemas "highlight-component" arguments)
    with (toolCase (HighlightComponentSchema schemas) "highlight-component" arguments).
  unfold toolCase. rewrite Hschema.
  unfold Bridge.pageAnswers. cbn [event data].
  change (Overlay.deliver _ _ _ _ _ true "highlight-component" (stringify args))
    with [Overlay.onHighlightComponent JSON_parse highlightComponent (stringify args)].
  unfold Overlay.onHighlightComponent, Overlay.deserialize. rewrite Hparse, Hname.
  cbn [map Overlay.sent Overlay.sends concat app Bridge.relay Overlay.event Overlay.data].
  match goal with
  | |- _ ∈ settled (wsReceive ?n ?p ?s1) =>
      apply (settled_by_response
               {| caller := who; owner := session; awaitedEvent := n;
                  deadline := (now s + timeout)%nat |} n p s1)
  end; [|done].
  unfold waitForEvent. cbn. apply elem_of_app. right. apply list_elem_of_singleton. done.
Qed.

End Highlight.

Lemma callTool_known (name : string) (parse : option Json -> ZodError + Json)
    (arguments : option Json) :
  schemaOf schemas name = Some parse ->
  callTool schemas name arguments = toolCase parse name arguments.
Proof.
  unfold schemaOf, callTool. intros H.
  repeat match goal with
         | H : context [String.eqb name ?k] |- _ =>
             destruct (String.eqb_spec name k) as [->|_];
             [injection H as <-; reflexivity|]
         end.
  discriminate.
Qed.

(** C4.  A call of a known tool whose arguments its schema rejects is
    rejected with the [Invalid input] error built from the schema's issues;
    no event has been sent on the websocket and no wait has started. *)
Theorem invalid_arguments_publish_nothing
    (who : nat) (session name : string) (arguments : option Json)
    (parse : option Json -> ZodError + Json) (error : ZodError) (s : Server) :
  schemaOf schemas name = Some parse ->
  parse arguments = inl error ->
  wsSent (toolCall schemas timeout who session name arguments s) = wsSent s /\
  waiters (toolCall schemas timeout who session name arguments s) = waiters s /\
  settled (toolCall schemas timeout who session name arguments s) =
    settled s ++
    [ {| settledCall := who; settledAt := now s;
         outcome := Rejected (InvalidInput ("Invalid input: " +:+ stringify (errors error))) |} ].
Proof.
  intros Hschema Hparse. unfold toolCall.
  rewrite (callTool_known name parse arguments Hschema).
  unfold toolCase. by rewrite Hparse.
Qed.

End ToolCalls.

(** C4 on the request [{componentName: 123}] to highlight-component. *)
Lemma invalid_arguments_publish_nothing_witness :
  let arguments := Some (JObj [("componentName"%string, JNum 123)]) in
  let s := Mcp.toolCall Mcp.declaredShapes 30 1 "s" "highlight-component" arguments
             Mcp.startServer in
  Mcp.wsSent s = [] /\ Mcp.waiters s = [] /\
  Mcp.settled s =
    [ {| Mcp.settledCall := 1; Mcp.settledAt := 0;
         Mcp.outcome :=
           Mcp.Rejected
             (Mcp.InvalidInput
                ("Invalid input: " +:+
                 stringify (Mcp.errors
                              (Mcp.issue "invalid_type" ["componentName"%string]
                                         "Expected string")))) |} ].
Proof.
  exact (invalid_arguments_publish_nothing Mcp.declaredShapes 30 1 "s" "highlight-component"
           (Some (JObj [("componentName"%string, JNum 123)]))
           Mcp.componentNameShape
           (Mcp.issue "invalid_type" ["componentName"%string] "Expected string")
           Mcp.startServer eq_refl eq_refl).
Defined.

(** C9 on a call that highlights two components. *)
Lemma highlight_result_is_the_page_sentence_witness :
  {| Mcp.settledCall := 1; Mcp.settledAt := 0;
     Mcp.outcome :=
       Mcp.Resolved {| Mcp.text := Some "Found and highlighted 2 components"%string |} |}
  ∈ Mcp.settled
      (Bridge.callThroughBridge Mcp.declaredShapes 30
         (Bridge.parseOf (JObj [("componentName"%string, JStr "App")]))
         (fun _ => inr [1; 2]%nat)
         (fun _ => inr Overlay.Undefined) (fun _ => inr Overlay.Undefined)
         (fun _ _ _ => inr Overlay.Undefined)
         1 "s" "highlight-component"
         (Some (JObj [("componentName"%string, JStr "App")])) Mcp.startServer).
Proof.
  exact (highlight_result_is_the_page_sentence Mcp.declaredShapes 30
           (Bridge.parseOf (JObj [("componentName"%string, JStr "App")]))
           (fun _ => inr [1; 2]%nat)
           (fun _ => inr Overlay.Undefined) (fun _ => inr Overlay.Undefined)
           (fun _ _ _ => inr Overlay.Undefined)
           1 "s" (Some (JObj [("componentName"%string, JStr "App")]))
           (JObj [("componentName"%string, JStr "App")])
           (JObj [("componentName"%string, JStr "App")])
           "App" Mcp.startServer eq_refl eq_refl eq_refl).
Defined.

(** C9 as stated fails: the call with [componentName = "App"] that
    highlights two components is answered with a sentence, which is not the
    text of a record [{highlightedCount: n}]. *)
Lemma highlight_result_is_not_a_count_record :
  exists result,
    Mcp.settled
      (Bridge.callThroughBridge Mcp.declaredShapes 30
         (Bridge.parseOf (JObj [("componentName"%string, JStr "App")]))
         (fun _ => inr [1; 2]%nat)
         (fun _ => inr Overlay.Undefined) (fun _ => inr Overlay.Undefined)
         (fun _ _ _ => inr Overlay.Undefined)
         1 "s" "highlight-component"
         (Some (JObj [("componentName"%string, JStr "App")])) Mcp.startServer)
    = [ {| Mcp.settledCall := 1; Mcp.settledAt := 0; Mcp.outcome := Mcp.Resolved result |} ] /\
    Mcp.text result = Some "Found and highlighted 2 components"%string /\
    ~ Bridge.isHighlightedCount result.
Proof.
  exists {| Mcp.text := Some "Found and highlighted 2 components"%string |}.
  split; [by vm_compute|]. split; [done|].
  intros [n Hn]. cbn in Hn. discriminate Hn.
Qed.

(** ** Waiting calls, sessions and time *)

Section Correlation.

Import Mcp.

Variable schemas : Schemas.
Variable timeout : nat.

Lemma callTool_awaits (name : string) (arguments : option Json)
    (request : WsEvent) (awaited : string) :
  callTool schemas name arguments = Awaits request awaited ->
  event request = name /\ awaited = name +:+ "-response".
Proof.
  unfold callTool, toolCase. intros H.
  repeat match goal with
         | H : context [String.eqb name ?k] |- _ =>
             destruct (String.eqb_spec name k) as [->|_];
             [ match type of H with
               | context [?parse arguments] => destruct (parse arguments)
               end; [discriminate|by injection H as <- <-] |]
         end.
  discriminate.
Qed.

Lemma toolCall_awaiting (who : nat) (session name : string) (arguments : option Json)
    (request : WsEvent) (awaited : string) (s : Server) :
  callTool schemas name arguments = Awaits request awaited ->
  toolCall schemas timeout who session name arguments s =
  {| transports := transports s; handed := handed s;
     wsSent := wsSent s ++ [request];
     waiters := waiters s ++
                [ {| caller := who; owner := session; awaitedEvent := awaited;
                     deadline := (now s + timeout)%nat |} ];
     settled := settled s; now := now s |}.
Proof. intros H. unfold toolCall. by rewrite H. Qed.

Lemma kept_by_response (w : Waiter) (name : string) (payload : option string) (s : Server) :
  w ∈ waiters s -> awaitedEvent w <> name -> w ∈ waiters (wsReceive name payload s).
Proof.
  intros Hw Hname. unfold wsReceive. cbn.
  apply list_elem_of_In, filter_In. split; [by apply list_elem_of_In|].
  unfold awaits. apply negb_true_iff. by apply String.eqb_neq.
Qed.

(** C1, as the code has it.  Two calls of one tool on one session, the
    second issued while the first still waits.  The second does not wait
    behind the first: its request event is sent at once, after the first's
    and before anything has answered the first, and both handlers are then
    suspended on the same event name, [<tool>-response].  The request is
    made from the tool name and the parsed arguments alone, so two calls
    with the same arguments put the same event on the pipe twice. *)
Theorem same_kind_calls_are_both_in_flight
    (who1 who2 : nat) (session name : string) (arguments1 arguments2 : option Json)
    (request1 request2 : WsEvent) (awaited1 awaited2 : string) (s : Server) :
  callTool schemas name arguments1 = Awaits request1 awaited1 ->
  callTool schemas name arguments2 = Awaits request2 awaited2 ->
  let suspended := fun w : Waiter => (caller w, owner w, awaitedEvent w) in
  let s1 := toolCall schemas timeout who1 session name arguments1 s in
  let s2 := toolCall schemas timeout who2 session name arguments2 s1 in
  awaited1 = name +:+ "-response" /\
  awaited2 = awaited1 /\
  event request1 = name /\
  event request2 = name /\
  wsSent s1 = wsSent s ++ [request1] /\
  map suspended (waiters s1) = map suspended (waiters s) ++ [(who1, session, awaited1)] /\
  settled s1 = settled s /\
  wsSent s2 = wsSent s ++ [request1; request2] /\
  map suspended (waiters s2) =
    map suspended (waiters s) ++ [(who1, session, awaited1); (who2, session, awaited1)] /\
  settled s2 = settled s /\
  (arguments1 = arguments2 -> request1 = request2).
Proof.
  intros H1 H2 suspended s1 s2.
  destruct (callTool_awaits _ _ _ _ H1) as [Hevent1 Hawaited1].
  destruct (callTool_awaits _ _ _ _ H2) as [Hevent2 Hawaited2].
  assert (Hs1 : s1 = {| transports := transports s; handed := handed s;
                        wsSent := wsSent s ++ [request1];
                        waiters := waiters s ++
                                   [ {| caller := who1; owner := session;
                                        awaitedEvent := awaited1;
                                        deadline := (now s + timeout)%nat |} ];
                        settled := settled s; now := now s |})
    by apply (toolCall_awaiting who1 _ _ _ _ _ s H1).
  assert (Hs2 : s2 = {| transports := transports s1; handed := handed s1;
                        wsSent := wsSent s1 ++ [request2];
                        waiters := waiters s1 ++
                                   [ {| caller := who2; owner := session;
                                        awaitedEvent := awaited2;
                                        deadline := (now s1 + timeout)%nat |} ];
                        settled := settled s1; now := now s1 |})
    by apply (toolCall_awaiting who2 _ _ _ _ _ s1 H2).
  assert (Hsame : awaited2 = awaited1) by congruence.
  rewrite Hs2, Hs1. cbn [wsSent waiters settled]. rewrite !map_app, <- !app_assoc, Hsame.
  split; [done|]. split; [done|]. split; [done|]. split; [done|].
  split; [done|]. split; [done|]. split; [done|]. split; [done|].
  split; [done|]. split; [done|].
  intros Harguments. rewrite Harguments in H1. congruence.
Qed.

(** C6, as the code has it.  Closing a session's connection removes its
    transport from the registry and touches nothing else: the other
    sessions, the events sent, the waits and the settlements are as before,
    a call that was waiting is still resolved by the next response event of
    its kind, and a later POST to [/messages] for the session is answered 404. *)
Theorem close_only_unregisters_the_session (id : string) (s : Server) :
  transports (sseClose id s) !! id = None /\
  (forall other, other <> id -> transports (sseClose id s) !! other = transports s !! other) /\
  waiters (sseClose id s) = waiters s /\
  settled (sseClose id s) = settled s /\
  wsSent (sseClose id s) = wsSent s /\
  handed (sseClose id s) = handed s /\
  now (sseClose id s) = now s /\
  (forall w payload, w ∈ waiters s -> owner w = id ->
     {| settledCall := caller w; settledAt := now s;
        outcome := Resolved (toolResult payload) |}
     ∈ settled (wsReceive (awaitedEvent w) payload (sseClose id s))) /\
  (forall searchParam req, method req = "POST"%string ->
     searchParam (queryOf req) "sessionId"%string = Some id -> id <> EmptyString ->
     statusOf (fst (messages searchParam req (sseClose id s))) = Some 404%nat).
Proof.
  unfold sseClose, withTransports. cbn. repeat split.
  - apply lookup_delete_eq.
  - intros other Hother. by apply lookup_delete_ne.
  - intros w payload Hw _.
    by apply (settled_by_response w (awaitedEvent w) payload
                (withTransports (delete id (transports s)) s)).
  - intros searchParam req Hm Hq Hid. unfold messages. rewrite Hm, Hq. cbn.
    apply String.eqb_neq in Hid. rewrite Hid. cbn. by rewrite lookup_delete_eq.
Qed.

(** *** Timeouts *)

Lemma filter_comm {A : Type} (p q : A -> bool) (l : list A) :
  List.filter p (List.filter q l) = List.filter q (List.filter p l).
Proof.
  induction l as [|a l IH]; [done|]. cbn.
  destruct (p a) eqn:Hp, (q a) eqn:Hq; cbn; rewrite ?Hp, ?Hq, IH; done.
Qed.

Lemma settlementsOf_app (who : nat) (s : Server) (new : list Settlement) :
  List.filter (fun x => (settledCall x =? who)%nat) (settled s ++ new) =
  settlementsOf who s ++ List.filter (fun x => (settledCall x =? who)%nat) new.
Proof. unfold settlementsOf. apply List.filter_app. Qed.

Lemma settlements_of_waiters (who : nat) (t : nat) (mk : Waiter -> Outcome)
    (l : list Waiter) :
  List.filter (fun x => (settledCall x =? who)%nat)
    (map (fun w => {| settledCall := caller w; settledAt := t; outcome := mk w |}) l) =
  map (fun w => {| settledCall := caller w; settledAt := t; outcome := mk w |})
      (List.filter (fun w => (caller w =? who)%nat) l).
Proof.
  induction l as [|w l IH]; [done|]. cbn.
  destruct (caller w =? who)%nat; cbn; by rewrite IH.
Qed.

Variable searchParam : string -> string -> option string.

Lemma messages_keeps_calls (req : HttpRequest) (s : Server) :
  waiters (snd (messages searchParam req s)) = waiters s /\
  settled (snd (messages searchParam req s)) = settled s /\
  now (snd (messages searchParam req s)) = now s.
Proof.
  unfold messages.
  repeat match goal with
         | |- context [if ?b then _ else _] => destruct b
         | |- context [match ?o with Some _ => _ | None => _ end] => destruct o
         end; done.
Qed.

Lemma step_timely (who : nat) (w : Waiter) (i : Input) (s : Server) :
  caller w = who ->
  quiet who (awaitedEvent w) i = true ->
  timely who w s -> timely who w (step schemas timeout searchParam i s).
Proof.
  intros Hcaller Hquiet Ht. destruct i as [other session name arguments|name payload|dt|id|id|req];
    cbn [step quiet] in *.
  - (* another call *)
    apply negb_true_iff in Hquiet.
    unfold timely, toolCall in *. destruct (callTool schemas name arguments) as [e|request awaited].
    + unfold settlementsOf, waitsOf in *. cbn. rewrite List.filter_app. cbn. rewrite Hquiet.
      by rewrite app_nil_r.
    + unfold settlementsOf, waitsOf in *. cbn. rewrite List.filter_app. cbn. rewrite Hquiet.
      by rewrite app_nil_r.
  - (* an event of another name *)
    apply negb_true_iff in Hquiet.
    assert (Hw : awaits name w = false).
    { unfold awaits. by rewrite String.eqb_sym. }
    assert (Hwaits : waitsOf who (wsReceive name payload s) =
                     List.filter (fun w => negb (awaits name w)) (waitsOf who s)).
    { unfold waitsOf, wsReceive. cbn. apply filter_comm. }
    assert (Hsettled : settlementsOf who (wsReceive name payload s) =
                       settlementsOf who s ++
                       map (fun w => {| settledCall := caller w; settledAt := now s;
                                        outcome := Resolved (toolResult payload) |})
                           (List.filter (awaits name) (waitsOf who s))).
    { unfold settlementsOf at 1, wsReceive. cbn. rewrite settlementsOf_app. f_equal.
      rewrite (settlements_of_waiters who (now s) (fun _ => Resolved (toolResult payload))).
      f_equal. unfold waitsOf. apply filter_comm. }
    unfold timely in *. rewrite Hwaits, Hsettled.
    change (now (wsReceive name payload s)) with (now s).
    destruct (now s <? deadline w)%nat.
    + destruct Ht as [-> ->]. cbn. by rewrite Hw.
    + destruct Ht as (t & Hle & -> & ->). exists t. by cbn.
  - (* time passes *)
    set (t := (now s + dt)%nat).
    assert (Hwaits : waitsOf who (elapse dt s) =
                     List.filter (fun w => negb (expired t w)) (waitsOf who s)).
    { unfold waitsOf, elapse. cbn. apply filter_comm. }
    assert (Hsettled : settlementsOf who (elapse dt s) =
                       settlementsOf who s ++
                       map (fun w => {| settledCall := caller w; settledAt := t;
                                        outcome := Rejected (TimeoutError (awaitedEvent w)) |})
                           (List.filter (expired t) (waitsOf who s))).
    { unfold settlementsOf at 1, elapse. cbn. rewrite settlementsOf_app. f_equal.
      rewrite (settlements_of_waiters who _ (fun w => Rejected (TimeoutError (awaitedEvent w)))).
      f_equal. unfold waitsOf. apply filter_comm. }
    unfold timely in *. rewrite Hwaits, Hsettled.
    change (now (elapse dt s)) with t.
    destruct (now s <? deadline w)%nat eqn:Hnow.
    + destruct Ht as [-> ->].
      destruct (t <? deadline w)%nat eqn:Ht'.
      * apply Nat.ltb_lt in Ht'.
        assert (expired t w = false) as Hexp by (apply Nat.leb_gt; lia).
        cbn. by rewrite Hexp.
      * apply Nat.ltb_ge in Ht'.
        assert (expired t w = true) as Hexp by (by apply Nat.leb_le).
        cbn. rewrite Hexp. cbn. exists t. rewrite Hcaller. repeat split; [done|lia].
    + destruct Ht as (t0 & Hle & -> & ->). apply Nat.ltb_ge in Hnow.
      assert ((t <? deadline w)%nat = false) as -> by (apply Nat.ltb_ge; lia).
      exists t0. cbn. repeat split; [lia|lia].
  - exact Ht.
  - exact Ht.
  - unfold timely, settlementsOf, waitsOf in *.
    destruct (messages_keeps_calls req s) as (-> & -> & ->). exact Ht.
Qed.

Lemma run_timely (who : nat) (w : Waiter) (inputs : list Input) (s : Server) :
  caller w = who ->
  forallb (quiet who (awaitedEvent w)) inputs = true ->
  timely who w s -> timely who w (run schemas timeout searchParam inputs s).
Proof.
  intros Hcaller. revert s. induction inputs as [|i rest IH]; intros s Hquiet Ht; [done|].
  cbn in *. apply andb_true_iff in Hquiet as [Hi Hrest].
  apply IH; [done|]. by apply step_timely.
Qed.

Lemma step_now (i : Input) (s : Server) :
  now (step schemas timeout searchParam i s) = (now s + elapsedTime [i])%nat.
Proof.
  destruct i as [who session name arguments|name payload|dt|id|id|req]; cbn [step elapsedTime].
  - unfold toolCall. destruct (callTool schemas name arguments); cbn; lia.
  - cbn. lia.
  - cbn. lia.
  - cbn. lia.
  - cbn. lia.
  - destruct (messages_keeps_calls req s) as (_ & _ & ->). lia.
Qed.

Lemma run_now (inputs : list Input) (s : Server) :
  now (run schemas timeout searchParam inputs s) = (now s + elapsedTime inputs)%nat.
Proof.
  revert s. induction inputs as [|i rest IH]; intros s; cbn [run]; [cbn; lia|].
  rewrite IH, step_now. destruct i; cbn [elapsedTime]; lia.
Qed.

(** C5.  A call whose arguments validate waits on its response event with
    the deadline [now + timeout].  Along any run in which no event of that
    name arrives, the clock has advanced by exactly the time that has
    passed, and: as long as less than [timeout] has passed, the call is
    still waiting and has received nothing; once [timeout] has passed, the
    call has received exactly one answer, the timeout error, at a time not
    before the deadline, and waits no more.  So the call never hangs: when
    a further [timeout] passes, it has been answered in any case. *)
Theorem unanswered_call_times_out_at_its_deadline
    (who : nat) (session name : string) (arguments : option Json)
    (request : WsEvent) (awaited : string) (inputs : list Input) (s : Server) :
  (0 < timeout)%nat ->
  callTool schemas name arguments = Awaits request awaited ->
  settlementsOf who s = [] ->
  waitsOf who s = [] ->
  forallb (quiet who awaited) inputs = true ->
  let w := {| caller := who; owner := session; awaitedEvent := awaited;
              deadline := (now s + timeout)%nat |} in
  let timedOut := fun (t : nat) (s' : Server) =>
    settlementsOf who s' =
      [ {| settledCall := who; settledAt := t;
           outcome := Rejected (TimeoutError awaited) |} ] /\
    waitsOf who s' = [] in
  let s' := run schemas timeout searchParam inputs
              (toolCall schemas timeout who session name arguments s) in
  let s'' := step schemas timeout searchParam (Elapse timeout) s' in
  now s' = (now s + elapsedTime inputs)%nat /\
  ((elapsedTime inputs < timeout)%nat ->
     settlementsOf who s' = [] /\ waitsOf who s' = [w]) /\
  ((timeout <= elapsedTime inputs)%nat ->
     exists t, (now s + timeout <= t <= now s + elapsedTime inputs)%nat /\ timedOut t s') /\
  (exists t, (now s + timeout <= t <= now s + elapsedTime inputs + timeout)%nat /\
             timedOut t s'').
Proof.
  intros Hpos Hcall Hnone Hidle Hquiet w timedOut s' s''.
  assert (Hstart : timely who w (toolCall schemas timeout who session name arguments s)).
  { rewrite (toolCall_awaiting who session name arguments request awaited s Hcall).
    unfold timely, settlementsOf, waitsOf in *.
    cbn [now settled waiters deadline awaitedEvent w].
    assert ((now s <? now s + timeout)%nat = true) as -> by (apply Nat.ltb_lt; lia).
    rewrite List.filter_app, Hidle. cbn. by rewrite Nat.eqb_refl. }
  assert (Hnow : now s' = (now s + elapsedTime inputs)%nat).
  { unfold s'. rewrite run_now.
    by rewrite (toolCall_awaiting who session name arguments request awaited s Hcall). }
  assert (Ht : timely who w s') by (by apply run_timely).
  assert (Ht' : timely who w s'') by (by apply step_timely).
  assert (Hnow' : now s'' = (now s + elapsedTime inputs + timeout)%nat).
  { unfold s''. rewrite step_now, Hnow. cbn [elapsedTime]. lia. }
  unfold timely in Ht, Ht'. rewrite Hnow in Ht. rewrite Hnow' in Ht'.
  cbn [deadline awaitedEvent w] in Ht, Ht'.
  split; [exact Hnow|]. split; [|split].
  - intros Hearly.
    assert ((now s + elapsedTime inputs <? now s + timeout)%nat = true) as Hlt
      by (apply Nat.ltb_lt; lia).
    by rewrite Hlt in Ht.
  - intros Hlate.
    assert ((now s + elapsedTime inputs <? now s + timeout)%nat = false) as Hge
      by (apply Nat.ltb_ge; lia).
    by rewrite Hge in Ht.
  - assert ((now s + elapsedTime inputs + timeout <? now s + timeout)%nat = false) as Hge
      by (apply Nat.ltb_ge; lia).
    by rewrite Hge in Ht'.
Qed.

End Correlation.

(** C5 on a highlight-component call with a timeout of 30, left unanswered
    while an event of another kind arrives and 35 units of time pass. *)
Lemma unanswered_call_times_out_at_its_deadline_witness :
  let inputs := [ Mcp.Elapse 10;
                  Mcp.WsReceive "get-component-tree-response" (Some "tree"%string);
                  Mcp.Elapse 25 ] in
  let w := {| Mcp.caller := 1; Mcp.owner := "s";
              Mcp.awaitedEvent := "highlight-component-response";
              Mcp.deadline := 30 |} in
  let timedOut := fun (t : nat) (s' : Mcp.Server) =>
    Mcp.settlementsOf 1 s' =
      [ {| Mcp.settledCall := 1; Mcp.settledAt := t;
           Mcp.outcome :=
             Mcp.Rejected (Mcp.TimeoutError "highlight-component-response") |} ] /\
    Mcp.waitsOf 1 s' = [] in
  let s' := Mcp.run Mcp.declaredShapes 30 (fun _ _ => None) inputs
              (Mcp.toolCall Mcp.declaredShapes 30 1 "s" "highlight-component"
                 (Some (JObj [("componentName"%string, JStr "App")])) Mcp.startServer) in
  let s'' := Mcp.step Mcp.declaredShapes 30 (fun _ _ => None) (Mcp.Elapse 30) s' in
  Mcp.now s' = 35%nat /\
  ((35 < 30)%nat -> Mcp.settlementsOf 1 s' = [] /\ Mcp.waitsOf 1 s' = [w]) /\
  ((30 <= 35)%nat -> exists t, (30 <= t <= 35)%nat /\ timedOut t s') /\
  (exists t, (30 <= t <= 65)%nat /\ timedOut t s'').
Proof.
  apply (unanswered_call_times_out_at_its_deadline Mcp.declaredShapes 30 (fun _ _ => None)
           1 "s" "highlight-component"
           (Some (JObj [("componentName"%string, JStr "App")]))
           {| Mcp.event := "highlight-component";
              Mcp.data := stringify (JObj [("componentName"%string, JStr "App")]) |}
           "highlight-component-response"
           [ Mcp.Elapse 10;
             Mcp.WsReceive "get-component-tree-response" (Some "tree"%string);
             Mcp.Elapse 25 ]
           Mcp.startServer);
    [lia | reflexivity | reflexivity | reflexivity | reflexivity].
Defined.

(** The same run, evaluated: the call is rejected at time 35. *)
Example unanswered_call_rejected_at_35 :
  Mcp.settled
    (Mcp.run Mcp.declaredShapes 30 (fun _ _ => None)
       [ Mcp.ToolCall 1 "s" "highlight-component"
           (Some (JObj [("componentName"%string, JStr "App")]));
         Mcp.Elapse 10;
         Mcp.WsReceive "get-component-tree-response" (Some "tree"%string);
         Mcp.Elapse 25 ]
       Mcp.startServer) =
  [ {| Mcp.settledCall := 1; Mcp.settledAt := 35;
       Mcp.outcome := Mcp.Rejected (Mcp.TimeoutError "highlight-component-response") |} ].
Proof. reflexivity. Qed.

(** C1 as stated fails: of two get-unnecessary-rerenders calls issued back
    to back on one session, the second does not wait behind the first.
    With no response received and no call answered, both requests are on the
    pipe and both calls are suspended on the one response event name. *)
Lemma second_call_does_not_wait_its_turn :
  let parsed := JObj [ ("allComponents"%string, JBool true);
                       ("debugMode"%string, JBool false) ] in
  let request := {| Mcp.event := "get-unnecessary-rerenders";
                    Mcp.data := stringify parsed |} in
  let s1 := Mcp.run Mcp.declaredShapes 30 (fun _ _ => None)
              [ Mcp.ToolCall 1 "s" "get-unnecessary-rerenders" (Some parsed) ]
              Mcp.startServer in
  let s2 := Mcp.run Mcp.declaredShapes 30 (fun _ _ => None)
              [ Mcp.ToolCall 2 "s" "get-unnecessary-rerenders" (Some parsed) ]
              s1 in
  Mcp.wsSent s1 = [request] /\
  map Mcp.caller (Mcp.inFlight "s" "get-unnecessary-rerenders-response" s1) = [1]%nat /\
  Mcp.settled s1 = [] /\
  Mcp.wsSent s2 = [request; request] /\
  map Mcp.caller (Mcp.inFlight "s" "get-unnecessary-rerenders-response" s2) = [1; 2]%nat /\
  Mcp.settled s2 = [].
Proof. repeat split; reflexivity. Qed.

(** C1 on the two back-to-back get-unnecessary-rerenders calls. *)
Lemma same_kind_calls_are_both_in_flight_witness :
  let arguments := Some (JObj [ ("allComponents"%string, JBool true);
                                ("debugMode"%string, JBool false) ]) in
  let request := {| Mcp.event := "get-unnecessary-rerenders";
                    Mcp.data := stringify (JObj [ ("allComponents"%string, JBool true);
                                                  ("debugMode"%string, JBool false) ]) |} in
  let awaited := "get-unnecessary-rerenders-response"%string in
  let suspended := fun w : Mcp.Waiter => (Mcp.caller w, Mcp.owner w, Mcp.awaitedEvent w) in
  let s1 := Mcp.toolCall Mcp.declaredShapes 30 1 "s" "get-unnecessary-rerenders" arguments
              Mcp.startServer in
  let s2 := Mcp.toolCall Mcp.declaredShapes 30 2 "s" "get-unnecessary-rerenders" arguments s1 in
  awaited = "get-unnecessary-rerenders" +:+ "-response" /\
  awaited = awaited /\
  Mcp.event request = "get-unnecessary-rerenders"%string /\
  Mcp.event request = "get-unnecessary-rerenders"%string /\
  Mcp.wsSent s1 = [] ++ [request] /\
  map suspended (Mcp.waiters s1) = [] ++ [(1%nat, "s"%string, awaited)] /\
  Mcp.settled s1 = [] /\
  Mcp.wsSent s2 = [] ++ [request; request] /\
  map suspended (Mcp.waiters s2) =
    [] ++ [(1%nat, "s"%string, awaited); (2%nat, "s"%string, awaited)] /\
  Mcp.settled s2 = [] /\
  (arguments = arguments -> request = request).
Proof.
  exact (same_kind_calls_are_both_in_flight Mcp.declaredShapes 30 1 2 "s"
           "get-unnecessary-rerenders"
           (Some (JObj [ ("allComponents"%string, JBool true);
                         ("debugMode"%string, JBool false) ]))
           (Some (JObj [ ("allComponents"%string, JBool true);
                         ("debugMode"%string, JBool false) ]))
           {| Mcp.event := "get-unnecessary-rerenders";
              Mcp.data := stringify (JObj [ ("allComponents"%string, JBool true);
                                            ("debugMode"%string, JBool false) ]) |}
           {| Mcp.event := "get-unnecessary-rerenders";
              Mcp.data := stringify (JObj [ ("allComponents"%string, JBool true);
                                            ("debugMode"%string, JBool false) ]) |}
           "get-unnecessary-rerenders-response" "get-unnecessary-rerenders-response"
           Mcp.startServer eq_refl eq_refl).
Defined.

(** C6 as stated fails: a call issued on session [s] is still
    waiting, and has received nothing, after the connection of [s] closed
    and its transport was removed. *)
Lemma pending_call_outlives_its_session :
  let s := Mcp.run Mcp.declaredShapes 30 (fun _ _ => None)
             [ Mcp.Sse "s";
               Mcp.ToolCall 1 "s" "highlight-component"
                 (Some (JObj [("componentName"%string, JStr "App")]));
               Mcp.SseClose "s" ]
             Mcp.startServer in
  Mcp.transports s !! "s"%string = None /\
  Mcp.inFlight "s" "highlight-component-response" s =
    [ {| Mcp.caller := 1; Mcp.owner := "s";
         Mcp.awaitedEvent := "highlight-component-response"; Mcp.deadline := 30 |} ] /\
  Mcp.settled s = [].
Proof. repeat split; reflexivity. Qed.

(** ** The [/messages] endpoint *)

Section MessagesEndpoint.

Import Mcp.

Variable searchParam : string -> string -> option string.

(** C7, as the code has it.  An OPTIONS request is answered 204 whatever
    its query; a request of any method other than POST and OPTIONS is
    answered 405; a POST request without a [sessionId] (absent or empty) is
    answered 400; a POST request whose [sessionId] names no registered
    transport is answered 404.  In all four cases the server's state is
    left exactly as it was. *)
Theorem messages_status_codes (req : HttpRequest) (s : Server) :
  (method req = "OPTIONS"%string ->
     statusOf (fst (messages searchParam req s)) = Some 204%nat /\
     snd (messages searchParam req s) = s) /\
  (method req <> "OPTIONS"%string -> method req <> "POST"%string ->
     statusOf (fst (messages searchParam req s)) = Some 405%nat /\
     snd (messages searchParam req s) = s) /\
  (method req = "POST"%string ->
     noClientId (searchParam (queryOf req) "sessionId") = true ->
     statusOf (fst (messages searchParam req s)) = Some 400%nat /\
     snd (messages searchParam req s) = s) /\
  (forall id, method req = "POST"%string ->
     searchParam (queryOf req) "sessionId" = Some id -> id <> EmptyString ->
     transports s !! id = None ->
     statusOf (fst (messages searchParam req s)) = Some 404%nat /\
     snd (messages searchParam req s) = s).
Proof.
  unfold messages. split; [|split; [|split]].
  - intros Hm. by rewrite Hm.
  - intros Ho Hp. apply String.eqb_neq in Ho, Hp. by rewrite Ho, Hp.
  - intros Hm Hno. rewrite Hm. cbn. by rewrite Hno.
  - intros id Hm Hq Hid Hnone. rewrite Hm, Hq. cbn.
    apply String.eqb_neq in Hid. rewrite Hid. cbn. by rewrite Hnone.
Qed.

(** A POST for a registered session is handed to its transport. *)
Lemma messages_for_registered_session (req : HttpRequest) (s : Server)
    (id : string) (transport : SSEServerTransport) :
  method req = "POST"%string ->
  searchParam (queryOf req) "sessionId" = Some id -> id <> EmptyString ->
  transports s !! id = Some transport ->
  served (fst (messages searchParam req s)) = HandedTo transport /\
  handed (snd (messages searchParam req s)) = handed s ++ [(id, req)] /\
  transports (snd (messages searchParam req s)) = transports s.
Proof.
  intros Hm Hq Hid Ht. unfold messages. rewrite Hm, Hq. cbn.
  apply String.eqb_neq in Hid. rewrite Hid. cbn. by rewrite Ht.
Qed.

End MessagesEndpoint.

(** C7 as stated fails: an OPTIONS request whose query carries no
    [sessionId] is answered 204, not 400. *)
Lemma options_without_session_is_answered_204 :
  let req := {| Mcp.method := "OPTIONS"; Mcp.url := Some "/"%string |} in
  let searchParam := fun (_ _ : string) => @None string in
  searchParam (Mcp.queryOf req) "sessionId"%string = None /\
  Mcp.statusOf (fst (Mcp.messages searchParam req Mcp.startServer)) = Some 204%nat /\
  Mcp.statusOf (fst (Mcp.messages searchParam req Mcp.startServer)) <> Some 400%nat.
Proof. repeat split. discriminate. Qed.

(** The scenario of the spec: a POST with the unregistered session [xyz]. *)
Example post_for_unknown_session_is_404 :
  let req := {| Mcp.method := "POST"; Mcp.url := Some "/?sessionId=xyz"%string |} in
  let searchParam := fun (query key : string) =>
    if String.eqb query "sessionId=xyz" && String.eqb key "sessionId"
    then Some "xyz"%string else None in
  let s := snd (Mcp.sse "abc" Mcp.startServer) in
  Mcp.queryOf req = "sessionId=xyz"%string /\
  Mcp.statusOf (fst (Mcp.messages searchParam req s)) = Some 404%nat /\
  snd (Mcp.messages searchParam req s) = s.
Proof. repeat split. Qed.

(** ** The commit hook on small runs *)

(** Three commits ingested from counter 5 get the ids 5, 6, 7. *)
Example three_commits_get_consecutive_ids :
  Overlay.commitIds
    [ {| Overlay.renderId := 1; Overlay.root := 10; Overlay.rendered := [] |};
      {| Overlay.renderId := 1; Overlay.root := 10; Overlay.rendered := [] |};
      {| Overlay.renderId := 2; Overlay.root := 11; Overlay.rendered := [] |} ]
    (Overlay.startTracking 5) = [5; 6; 7].
Proof. reflexivity. Qed.

(** One commit that mounts fiber 1 and re-renders fiber 2 with unchanged
    inputs and fiber 3 with changed ones: only fiber 2 is recorded as wasted. *)
Example only_the_unchanged_update_is_wasted :
  let commit :=
    {| Overlay.renderId := 1; Overlay.root := 10;
       Overlay.rendered :=
         [ ({| Overlay.fiberRef := 1; Overlay.inputsChanged := false |}, Overlay.mount);
           ({| Overlay.fiberRef := 2; Overlay.inputsChanged := false |}, Overlay.update);
           ({| Overlay.fiberRef := 3; Overlay.inputsChanged := true |}, Overlay.update) ] |} in
  let s := Overlay.store (Overlay.ingest [commit] (Overlay.startTracking 0)) in
  Overlay.recordedWasted s 0 1 = false /\
  Overlay.recordedWasted s 0 2 = true /\
  Overlay.recordedWasted s 0 3 = false /\
  Overlay.currentCommitFrameId s = 1 /\
  (Overlay.fiberRoots (Overlay.ingest [commit] (Overlay.startTracking 0)) !! 1%nat)
    = Some ({[ 10%nat ]} : gset nat).
Proof. repeat split; reflexivity. Qed.

(** * Further properties *)

#[local] Set Warnings "-clear-no-such-hyp".

(** ** The listeners of the overlay *)

Section Listeners.

Import Overlay.

Variable JSON_parse : string -> Thrown + Json.
Variable highlightComponent : string -> Thrown + list nat.
Variable getComponentTree : Json -> Thrown + JsValue.
Variable getComponentStates : string -> Thrown + JsValue.
Variable getUnnecessaryRenderedComponents : option Json -> bool -> bool -> Thrown + JsValue.

Lemma highlight_answers_once_or_throws (payload : string) :
  answersOnceOrThrows "highlight-component-response"
    (onHighlightComponent JSON_parse highlightComponent payload).
Proof.
  unfold onHighlightComponent, deserialize, answersOnceOrThrows, sends, throws.
  destruct (JSON_parse payload) as [e|d]; cbn; [by eauto|].
  destruct (getMemberOpt d "componentName") as [[| | |name| |]|]; cbn; eauto.
Qed.

Lemma tree_answers_once_or_throws (payload : string) :
  answersOnceOrThrows "get-component-tree-response"
    (onGetComponentTree JSON_parse getComponentTree payload).
Proof.
  unfold onGetComponentTree, deserialize, answersOnceOrThrows, sends, throws.
  destruct (JSON_parse payload) as [e|d]; cbn; [by eauto|].
  destruct (getComponentTree d) as [e|v]; cbn; [by eauto|].
  destruct (JSON_stringify v); cbn; eauto.
Qed.

Lemma states_answers_once_or_throws (payload : string) :
  answersOnceOrThrows "get-component-states-response"
    (onGetComponentStates JSON_parse getComponentStates payload).
Proof.
  unfold onGetComponentStates, deserialize, answersOnceOrThrows, sends, throws.
  destruct (JSON_parse payload) as [e|d]; cbn; [by eauto|].
  destruct (getMemberOpt d "componentName") as [[| | |name| |]|]; cbn; eauto.
  destruct (getComponentStates name) as [e|v]; cbn; [by eauto|].
  destruct (JSON_stringify v); cbn; eauto.
Qed.

Lemma rerenders_answers_once_or_throws (payload : string) :
  answersOnceOrThrows "get-unnecessary-rerenders-response"
    (onGetUnnecessaryRerenders JSON_parse getUnnecessaryRenderedComponents payload).
Proof.
  unfold onGetUnnecessaryRerenders, deserialize, answersOnceOrThrows, sends, throws.
  destruct (JSON_parse payload) as [e|d]; cbn; [by eauto|].
  destruct (getMember d "timeframe") as [e|t]; cbn; [by eauto|].
  destruct (getUnnecessaryRenderedComponents _ _ _) as [e|v]; cbn; eauto.
Qed.

Lemma deliver_cases (hot : bool) (name payload : string) :
  let d := deliver JSON_parse highlightComponent getComponentTree getComponentStates
             getUnnecessaryRenderedComponents hot name payload in
  (d = [] /\ (hot = false \/ name ∉ requestEvents)) \/
  (hot = true /\ name ∈ requestEvents /\
   exists r, d = [r] /\ answersOnceOrThrows (name +:+ "-response") r).
Proof.
  unfold deliver, setupMcpToolsHandler. destruct hot; [|left; split; [done|by left]].
  cbn -[onHighlightComponent onGetComponentTree onGetComponentStates
        onGetUnnecessaryRerenders].
  unfold requestEvents.
  destruct (decide ("highlight-component"%string = name)) as [<-|N1];
    [|destruct (decide ("get-component-tree"%string = name)) as [<-|N2];
      [|destruct (decide ("get-component-states"%string = name)) as [<-|N3];
        [|destruct (decide ("get-unnecessary-rerenders"%string = name)) as [<-|N4]]]];
    cbn -[onHighlightComponent onGetComponentTree onGetComponentStates
          onGetUnnecessaryRerenders].
  - right. repeat split; [rewrite !elem_of_cons; auto 10|]. eexists; split; [reflexivity|].
    apply highlight_answers_once_or_throws.
  - right. repeat split; [rewrite !elem_of_cons; auto 10|]. eexists; split; [reflexivity|].
    apply tree_answers_once_or_throws.
  - right. repeat split; [rewrite !elem_of_cons; auto 10|]. eexists; split; [reflexivity|].
    apply states_answers_once_or_throws.
  - right. repeat split; [rewrite !elem_of_cons; auto 10|]. eexists; split; [reflexivity|].
    apply rerenders_answers_once_or_throws.
  - left. split; [done|]. right. rewrite !elem_of_cons, elem_of_nil. intuition congruence.
Qed.

(** X1.  Whatever event reaches the page: at most one listener runs, and
    only for one of the four request events with hot updates available.  A
    listener that completes has sent exactly one event, named after the
    request with [-response] appended; a listener that throws has sent
    nothing. *)
Theorem listeners_answer_once_or_not_at_all (hot : bool) (name payload : string) :
  (length (deliver JSON_parse highlightComponent getComponentTree getComponentStates
             getUnnecessaryRenderedComponents hot name payload) <= 1)%nat /\
  (length (deliver JSON_parse highlightComponent getComponentTree getComponentStates
             getUnnecessaryRenderedComponents hot name payload) = 1%nat <->
   hot = true /\ name ∈ requestEvents) /\
  (forall r,
     r ∈ deliver JSON_parse highlightComponent getComponentTree getComponentStates
           getUnnecessaryRenderedComponents hot name payload ->
     (thrown r = None /\
      exists d, sent r = [ {| event := name +:+ "-response"; data := d |} ]) \/
     (exists e, thrown r = Some e /\ sent r = [])).
Proof.
  destruct (deliver_cases hot name payload) as [[-> Hno]|(-> & Hin & r & -> & Hr)].
  - split; [cbn; lia|]. split.
    + split; [discriminate|]. intros [-> Hin]. by destruct Hno.
    + intros r Hr. by apply elem_of_nil in Hr.
  - split; [cbn; lia|]. split; [done|].
    intros r' Hr'. apply list_elem_of_singleton in Hr' as ->. exact Hr.
Qed.

(** X2.  A payload that [JSON.parse] rejects: the listener of each of the
    four request events throws an [Error] whose message ends with a colon
    and the raw payload, and sends nothing. *)
Theorem malformed_payload_is_reported_with_the_payload
    (name payload : string) (error : Thrown) :
  name ∈ requestEvents ->
  JSON_parse payload = inl error ->
  exists message,
    deliver JSON_parse highlightComponent getComponentTree getComponentStates
      getUnnecessaryRenderedComponents true name payload =
    [ {| sent := [];
         thrown := Some (ThrownError (message +:+ ": " +:+ payload)) |} ].
Proof.
  intros Hname Hparse. unfold requestEvents in Hname.
  rewrite !elem_of_cons, elem_of_nil in Hname.
  destruct Hname as [->|[->|[->|[->|[]]]]].
  - change (deliver _ _ _ _ _ true "highlight-component" payload)
      with [onHighlightComponent JSON_parse highlightComponent payload].
    unfold onHighlightComponent, deserialize, throws. rewrite Hparse. eauto.
  - change (deliver _ _ _ _ _ true "get-component-tree" payload)
      with [onGetComponentTree JSON_parse getComponentTree payload].
    unfold onGetComponentTree, deserialize, throws. rewrite Hparse. eauto.
  - change (deliver _ _ _ _ _ true "get-component-states" payload)
      with [onGetComponentStates JSON_parse getComponentStates payload].
    unfold onGetComponentStates, deserialize, throws. rewrite Hparse. eauto.
  - change (deliver _ _ _ _ _ true "get-unnecessary-rerenders" payload)
      with [onGetUnnecessaryRerenders JSON_parse getUnnecessaryRenderedComponents payload].
    unfold onGetUnnecessaryRerenders, deserialize, throws. rewrite Hparse. eauto.
Qed.

(** X3.  A tool that throws.  The highlight-component listener still
    answers, with [Error: ] and the message; the other three listeners
    throw what the tool threw and send nothing, so their request stays
    without a response. *)
Theorem only_highlight_answers_when_its_tool_throws
    (payload : string) (d : Json) (error : Thrown) :
  JSON_parse payload = inr d ->
  (forall componentName,
     getMemberOpt d "componentName" = Some (JStr componentName) ->
     highlightComponent componentName = inl error ->
     onHighlightComponent JSON_parse highlightComponent payload =
     sends "highlight-component-response" (Some ("Error: " +:+ errorMessage error))) /\
  (getComponentTree d = inl error ->
     onGetComponentTree JSON_parse getComponentTree payload = throws error) /\
  (forall componentName,
     getMemberOpt d "componentName" = Some (JStr componentName) ->
     getComponentStates componentName = inl error ->
     onGetComponentStates JSON_parse getComponentStates payload = throws error) /\
  (forall timeframe,
     getMember d "timeframe" = inr timeframe ->
     getUnnecessaryRenderedComponents timeframe
       (truthy (getMemberOpt d "allComponents"))
       (truthy (getMemberOpt d "debugMode")) = inl error ->
     onGetUnnecessaryRerenders JSON_parse getUnnecessaryRenderedComponents payload =
     throws error).
Proof.
  intros Hparse.
  unfold onHighlightComponent, onGetComponentTree, onGetComponentStates,
    onGetUnnecessaryRerenders, deserialize.
  rewrite Hparse. repeat split.
  - intros componentName Hname Htool. by rewrite Hname, Htool.
  - intros Htool. by rewrite Htool.
  - intros componentName Hname Htool. by rewrite Hname, Htool.
  - intros timeframe Htime Htool. by rewrite Htime, Htool.
Qed.

End Listeners.

(** X2 on the payload [oops] sent as get-component-tree. *)
Lemma malformed_payload_is_reported_with_the_payload_witness :
  exists message,
    Overlay.deliver (fun _ => inl (ThrownError "Unexpected token o in JSON at position 0"))
      (fun _ => inr []) (fun _ => inr Overlay.Undefined) (fun _ => inr Overlay.Undefined)
      (fun _ _ _ => inr Overlay.Undefined) true "get-component-tree" "oops" =
    [ {| Overlay.sent := [];
         Overlay.thrown := Some (ThrownError (message +:+ ": " +:+ "oops")) |} ].
Proof.
  apply (malformed_payload_is_reported_with_the_payload
           (fun _ => inl (ThrownError "Unexpected token o in JSON at position 0"))
           (fun _ => inr []) (fun _ => inr Overlay.Undefined)
           (fun _ => inr Overlay.Undefined) (fun _ _ _ => inr Overlay.Undefined)
           "get-component-tree" "oops"
           (ThrownError "Unexpected token o in JSON at position 0")).
  - unfold Overlay.requestEvents. rewrite !elem_of_cons. auto.
  - reflexivity.
Defined.

(** X3 on a request [{componentName: App}] whose tools all throw. *)
Lemma only_highlight_answers_when_its_tool_throws_witness :
  let d := JObj [("componentName"%string, JStr "App")] in
  let boom := ThrownError "boom" in
  Overlay.onHighlightComponent (Bridge.parseOf d) (fun _ => inl boom) (stringify d) =
    Overlay.sends "highlight-component-response" (Some "Error: boom"%string) /\
  Overlay.onGetComponentTree (Bridge.parseOf d) (fun _ => inl boom) (stringify d) =
    Overlay.throws boom.
Proof.
  pose proof (only_highlight_answers_when_its_tool_throws
                (Bridge.parseOf (JObj [("componentName"%string, JStr "App")]))
                (fun _ => inl (ThrownError "boom")) (fun _ => inl (ThrownError "boom"))
                (fun _ => inl (ThrownError "boom")) (fun _ _ _ => inl (ThrownError "boom"))
                (stringify (JObj [("componentName"%string, JStr "App")]))
                (JObj [("componentName"%string, JStr "App")])
                (ThrownError "boom") eq_refl) as (Hh & Ht & _).
  split.
  - exact (Hh "App"%string eq_refl eq_refl).
  - exact (Ht eq_refl).
Defined.

(** ** The roots kept by the commit hook *)

Section RootSet.

Import Overlay.

Lemma rootsOf_onCommitFiberRoot (c : Commit) (t : Tracking) (id r : nat) :
  r ∈ rootsOf (onCommitFiberRoot c t) id <->
  r ∈ rootsOf t id \/ (renderId c = id /\ root c = r).
Proof.
  unfold rootsOf, onCommitFiberRoot. cbn.
  destruct (fiberRoots t !! renderId c) as [known|] eqn:Hknown;
    destruct (decide (renderId c = id)) as [<-|Hne].
  - rewrite lookup_insert_eq, Hknown. cbn. set_solver.
  - rewrite lookup_insert_ne by done. naive_solver.
  - rewrite lookup_insert_eq, Hknown. cbn. set_solver.
  - rewrite lookup_insert_ne by done. naive_solver.
Qed.

(** X4.  After any run of commits, the roots recorded under a render id
    are those recorded before together with the roots of the ingested
    commits that carried this id: every root seen is kept, none is ever
    removed, and nothing else gets in. *)
Theorem fiber_roots_are_the_roots_seen (commits : list Commit) (t : Tracking) (id r : nat) :
  r ∈ rootsOf (ingest commits t) id <->
  r ∈ rootsOf t id \/ exists c, c ∈ commits /\ renderId c = id /\ root c = r.
Proof.
  revert t. induction commits as [|c rest IH]; intros t; cbn [ingest].
  - split; [by left|]. intros [H|(c & Hc & _)]; [done|]. by apply elem_of_nil in Hc.
  - rewrite IH, rootsOf_onCommitFiberRoot. split.
    + intros [[H|[Hid Hr]]|(c' & Hc' & Hid & Hr)].
      * by left.
      * right. exists c. split; [apply elem_of_cons; by left|done].
      * right. exists c'. split; [apply elem_of_cons; by right|done].
    + intros [H|(c' & Hc' & Hid & Hr)]; [by left; left|].
      apply elem_of_cons in Hc' as [->|Hc'].
      * left; right. done.
      * right. exists c'. done.
Qed.

(** X5.  A render id is a key of [fiberRoots] exactly when it was one
    before or some ingested commit carried it; the set under a key is never
    empty when the sets were non-empty to begin with. *)
Theorem fiber_roots_keys_are_the_render_ids_seen
    (commits : list Commit) (t : Tracking) (id : nat) :
  (is_Some (fiberRoots (ingest commits t) !! id) <->
   is_Some (fiberRoots t !! id) \/ exists c, c ∈ commits /\ renderId c = id) /\
  ((forall k s, fiberRoots t !! k = Some s -> s <> ∅) ->
   forall s, fiberRoots (ingest commits t) !! id = Some s -> s <> ∅).
Proof.
  split.
  - revert t. induction commits as [|c rest IH]; intros t; cbn [ingest].
    + split; [by left|]. intros [H|(c & Hc & _)]; [done|]. by apply elem_of_nil in Hc.
    + rewrite IH. unfold onCommitFiberRoot at 1. cbn.
      assert (Hstep : is_Some (match fiberRoots t !! renderId c with
                               | Some known => <[renderId c := known ∪ {[root c]}]> (fiberRoots t)
                               | None => <[renderId c := {[root c]}]> (fiberRoots t)
                               end !! id) <->
                      is_Some (fiberRoots t !! id) \/ renderId c = id).
      { destruct (fiberRoots t !! renderId c) as [known|] eqn:Hknown;
          destruct (decide (renderId c = id)) as [<-|Hne];
          rewrite ?lookup_insert_eq, ?lookup_insert_ne by done; naive_solver. }
      rewrite Hstep. split.
      * intros [[H|Hid]|(c' & Hc' & Hid)]; [by left| |].
        -- right. exists c. split; [apply elem_of_cons; by left|done].
        -- right. exists c'. split; [apply elem_of_cons; by right|done].
      * intros [H|(c' & Hc' & Hid)]; [by left; left|].
        apply elem_of_cons in Hc' as [->|Hc']; [by left; right|].
        right. by exists c'.
  - revert t. induction commits as [|c rest IH]; intros t Hne s Hs; cbn [ingest] in Hs.
    + by apply (Hne id).
    + apply (IH (onCommitFiberRoot c t)); [|done].
      intros k s' Hs'. unfold onCommitFiberRoot in Hs'. cbn in Hs'.
      destruct (fiberRoots t !! renderId c) as [known|] eqn:Hknown;
        destruct (decide (renderId c = k)) as [<-|Hk];
        rewrite ?lookup_insert_eq, ?lookup_insert_ne in Hs' by done;
        try (injection Hs' as <-; set_solver); by apply (Hne k).
Qed.

End RootSet.

(** ** What [init] leaves alone, and when it fails *)

Section InitFrame.

Import JsObject Overlay.

(** X6.  When [init] succeeds, every other property of [target] is as it
    was, [target] is as extensible as before, and every object that was
    allocated is untouched. *)
Theorem init_leaves_the_rest_alone (r r' : Realm) :
  init r = inr r' ->
  (forall key, key <> __VITE_REACT_MCP_TOOLS__ ->
     props (target r') !! key = props (target r) !! key) /\
  extensible (target r') = extensible (target r) /\
  (forall ref o, heap r !! ref = Some o -> heap r' !! ref = Some o).
Proof.
  intros Hinit. destruct (hasOwn (target r) __VITE_REACT_MCP_TOOLS__) eqn:Hown.
  - rewrite (init_when_present r Hown) in Hinit. by injection Hinit as <-.
  - pose proof (init_when_absent r r' Hown Hinit) as Hr'. cbn zeta in Hr'.
    unfold init in Hinit. rewrite Hown in Hinit. unfold alloc, defineProperty in Hinit.
    cbn in Hinit. unfold hasOwn in Hown.
    destruct (props (target r) !! __VITE_REACT_MCP_TOOLS__); [done|].
    destruct (extensible (target r)) eqn:Hext; [|done].
    subst r'. cbn. repeat split.
    + intros key Hkey. by rewrite lookup_insert_ne.
    + intros ref o Href. rewrite lookup_insert_ne; [done|].
      intros <-. apply (is_fresh (dom (heap r))). apply elem_of_dom. by eexists.
Qed.

(** X7.  [init] throws exactly when [target] lacks the property and is not
    extensible. *)
Theorem init_fails_exactly_on_a_sealed_target (r : Realm) :
  (exists e, init r = inl e) <->
  hasOwn (target r) __VITE_REACT_MCP_TOOLS__ = false /\ extensible (target r) = false.
Proof.
  unfold init, alloc, defineProperty, hasOwn. cbn.
  destruct (props (target r) !! __VITE_REACT_MCP_TOOLS__); cbn.
  - split; [by intros [e He]|by intros [? _]].
  - destruct (extensible (target r)); split.
    + by intros [e He].
    + by intros [_ ?].
    + done.
    + intros _. by eexists.
Qed.

(** X8.  The property [init] installs is configurable: a later
    [Object.defineProperty] with a new value succeeds and replaces the
    installed object, the property staying non-writable. *)
Theorem installed_property_can_be_redefined (r r' : Realm) (v : Value) :
  hasOwn (target r) __VITE_REACT_MCP_TOOLS__ = false ->
  init r = inr r' ->
  exists t',
    defineProperty (target r') __VITE_REACT_MCP_TOOLS__
      {| d_value := Some v; d_writable := None;
         d_enumerable := None; d_configurable := None |} = inr t' /\
    props t' !! __VITE_REACT_MCP_TOOLS__ =
      Some {| value := v; writable := false; enumerable := false; configurable := true |}.
Proof.
  intros Hown Hinit. rewrite (init_when_absent r r' Hown Hinit). cbn zeta.
  unfold defineProperty. cbn. rewrite lookup_insert_eq. cbn.
  eexists. split; [reflexivity|]. cbn. by rewrite lookup_insert_eq.
Qed.

End InitFrame.

(** X6 on a page that holds one other property and one other object. *)
Lemma init_leaves_the_rest_alone_witness :
  let page :=
    {| JsObject.target :=
         {| JsObject.props := {[ "document"%string := JsObject.plainProperty (JsObject.VRef 0) ]};
            JsObject.extensible := true |};
       JsObject.heap := {[ 0%nat := JsObject.objectLiteral [] ]} |} in
  exists r',
    Overlay.init page = inr r' /\
    (forall key, key <> Overlay.__VITE_REACT_MCP_TOOLS__ ->
       JsObject.props (JsObject.target r') !! key =
       JsObject.props (JsObject.target page) !! key) /\
    JsObject.extensible (JsObject.target r') = JsObject.extensible (JsObject.target page) /\
    (forall ref o, JsObject.heap page !! ref = Some o -> JsObject.heap r' !! ref = Some o).
Proof.
  intros page. destruct (Overlay.init page) as [e|r'] eqn:Hinit.
  - exfalso. by vm_compute in Hinit.
  - exists r'. split; [reflexivity|]. exact (init_leaves_the_rest_alone page r' Hinit).
Defined.

(** X8 on the empty page. *)
Lemma installed_property_can_be_redefined_witness :
  exists r' t',
    Overlay.init Overlay.emptyPage = inr r' /\
    JsObject.defineProperty (JsObject.target r') Overlay.__VITE_REACT_MCP_TOOLS__
      {| JsObject.d_value := Some (JsObject.VFunction "other");
         JsObject.d_writable := None; JsObject.d_enumerable := None;
         JsObject.d_configurable := None |} = inr t' /\
    JsObject.props t' !! Overlay.__VITE_REACT_MCP_TOOLS__ =
      Some {| JsObject.value := JsObject.VFunction "other"; JsObject.writable := false;
              JsObject.enumerable := false; JsObject.configurable := true |}.
Proof.
  destruct (Overlay.init Overlay.emptyPage) as [e|r'] eqn:Hinit.
  - exfalso. by vm_compute in Hinit.
  - destruct (installed_property_can_be_redefined Overlay.emptyPage r'
                (JsObject.VFunction "other") eq_refl Hinit) as (t' & Hdef & Hprop).
    exists r', t'. split; [reflexivity|]. split; assumption.
Defined.

(** ** The dispatcher and the tools it lists *)

Section Dispatch.

Import Mcp.

Variable schemas : Schemas.
Variable timeout : nat.

Lemma callTool_listed (tool : ToolInfo) (arguments : option Json) :
  tool ∈ listTools ->
  callTool schemas (toolName tool) arguments =
  toolCase (schemaSource tool schemas) (toolName tool) arguments.
Proof.
  unfold listTools. rewrite !elem_of_cons, elem_of_nil.
  intros [->|[->|[->|[->|[]]]]]; reflexivity.
Qed.

Lemma callTool_unlisted (name : string) (arguments : option Json) :
  name ∉ List.map toolName listTools ->
  callTool schemas name arguments = Throws (UnknownTool ("Unknown tool: " +:+ name)).
Proof.
  cbn. rewrite !elem_of_cons, elem_of_nil. intros Hname. unfold callTool.
  repeat match goal with
         | |- context [String.eqb name ?k] =>
             destruct (String.eqb_spec name k) as [->|_]; [exfalso; apply Hname; auto 10|]
         end.
  reflexivity.
Qed.

(** X9.  The dispatcher knows exactly the tools the listing announces.  A
    call naming a listed tool is parsed with the schema that tool is listed
    with; a call naming anything else is rejected with [Unknown tool: ] and
    the name, and neither sends an event nor starts a wait. *)
Theorem dispatcher_knows_exactly_the_listed_tools
    (who : nat) (session name : string) (arguments : option Json) (s : Server) :
  (forall tool, tool ∈ listTools -> toolName tool = name ->
     callTool schemas name arguments =
     toolCase (schemaSource tool schemas) name arguments) /\
  (name ∉ List.map toolName listTools ->
     callTool schemas name arguments =
       Throws (UnknownTool ("Unknown tool: " +:+ name)) /\
     wsSent (toolCall schemas timeout who session name arguments s) = wsSent s /\
     waiters (toolCall schemas timeout who session name arguments s) = waiters s /\
     settled (toolCall schemas timeout who session name arguments s) =
       settled s ++
       [ {| settledCall := who; settledAt := now s;
            outcome := Rejected (UnknownTool ("Unknown tool: " +:+ name)) |} ]).
Proof.
  split.
  - intros tool Hin <-. by apply callTool_listed.
  - intros Hname. pose proof (callTool_unlisted name arguments Hname) as Hcall.
    split; [done|]. unfold toolCall. by rewrite Hcall.
Qed.

Variable searchParam : string -> string -> option string.

Lemma step_wsSent (i : Input) (s : Server) :
  wsSent (step schemas timeout searchParam i s) = wsSent s ++ requestOf schemas i.
Proof.
  destruct i as [who session name arguments|name payload|dt|id|id|req]; cbn;
    try by rewrite app_nil_r.
  - unfold toolCall. destruct (callTool schemas name arguments); cbn; [by rewrite app_nil_r|done].
  - unfold messages.
    repeat match goal with
           | |- context [if ?b then _ else _] => destruct b
           | |- context [match ?o with Some _ => _ | None => _ end] => destruct o
           end; cbn; by rewrite app_nil_r.
Qed.

(** X10.  Over any run of the server, the events published on the
    websocket are, in order, one request per tool call whose arguments
    validated, and nothing else: no other input publishes, and a rejected
    call publishes nothing. *)
Theorem published_events_are_the_valid_calls (inputs : list Input) (s : Server) :
  wsSent (run schemas timeout searchParam inputs s) =
  wsSent s ++ concat (List.map (requestOf schemas) inputs).
Proof.
  revert s. induction inputs as [|i rest IH]; intros s; cbn.
  - by rewrite app_nil_r.
  - by rewrite IH, step_wsSent, <- app_assoc.
Qed.

End Dispatch.

(** ** The two sides agree on the event names *)

Section Protocol.

Variable schemas : Mcp.Schemas.
Variable JSON_parse : string -> Thrown + Json.
Variable highlightComponent : string -> Thrown + list nat.
Variable getComponentTree : Json -> Thrown + Overlay.JsValue.
Variable getComponentStates : string -> Thrown + Overlay.JsValue.
Variable getUnnecessaryRenderedComponents :
  option Json -> bool -> bool -> Thrown + Overlay.JsValue.

(** X11.  Whenever the dispatcher publishes a request and waits, exactly
    one listener of the page runs on that request, and every event it sends
    back carries the very name the dispatcher is waiting on. *)
Theorem page_answers_on_the_awaited_event
    (name : string) (arguments : option Json) (request : Mcp.WsEvent) (awaited : string) :
  Mcp.callTool schemas name arguments = Mcp.Awaits request awaited ->
  exists r,
    Overlay.deliver JSON_parse highlightComponent getComponentTree getComponentStates
      getUnnecessaryRenderedComponents true (Mcp.event request) (Mcp.data request) = [r] /\
    (forall answer, answer ∈ Overlay.sent r -> Overlay.event answer = awaited) /\
    (forall answer,
       answer ∈ Bridge.pageAnswers JSON_parse highlightComponent getComponentTree
                  getComponentStates getUnnecessaryRenderedComponents request ->
       Overlay.event answer = awaited).
Proof.
  intros Hcall.
  destruct (callTool_awaits schemas name arguments request awaited Hcall) as [Hevent ->].
  assert (Hlisted : name ∈ Overlay.requestEvents).
  { destruct (decide (name ∈ List.map Mcp.toolName Mcp.listTools)) as [Hin|Hout]; [exact Hin|].
    rewrite (callTool_unlisted schemas name arguments Hout) in Hcall. discriminate. }
  destruct (deliver_cases JSON_parse highlightComponent getComponentTree getComponentStates
              getUnnecessaryRenderedComponents true name (Mcp.data request))
    as [[_ [Hhot|Hno]]|(_ & _ & r & Hr & Hshape)]; [discriminate|done|].
  assert (Hsent : forall answer, answer ∈ Overlay.sent r ->
                                 Overlay.event answer = name +:+ "-response").
  { intros answer Hanswer.
    destruct Hshape as [(_ & d & Hd)|(e & _ & Hnone)].
    - rewrite Hd in Hanswer. by apply list_elem_of_singleton in Hanswer as ->.
    - rewrite Hnone in Hanswer. by apply elem_of_nil in Hanswer. }
  exists r. rewrite Hevent. split; [exact Hr|]. split; [exact Hsent|].
  intros answer Hanswer. unfold Bridge.pageAnswers in Hanswer.
  rewrite Hevent, Hr in Hanswer. cbn in Hanswer. rewrite app_nil_r in Hanswer.
  by apply Hsent.
Qed.

End Protocol.

(** X11 on a get-component-states call for [App]. *)
Lemma page_answers_on_the_awaited_event_witness :
  let args := JObj [("componentName"%string, JStr "App")] in
  let request := {| Mcp.event := "get-component-states"; Mcp.data := stringify args |} in
  exists r,
    Overlay.deliver (Bridge.parseOf args) (fun _ => inr [])
      (fun _ => inr Overlay.Undefined) (fun _ => inr (Overlay.Plain (JObj [])))
      (fun _ _ _ => inr Overlay.Undefined)
      true (Mcp.event request) (Mcp.data request) = [r] /\
    (forall answer, answer ∈ Overlay.sent r ->
                    Overlay.event answer = "get-component-states-response"%string) /\
    (forall answer,
       answer ∈ Bridge.pageAnswers (Bridge.parseOf args) (fun _ => inr [])
                  (fun _ => inr Overlay.Undefined) (fun _ => inr (Overlay.Plain (JObj [])))
                  (fun _ _ _ => inr Overlay.Undefined) request ->
       Overlay.event answer = "get-component-states-response"%string).
Proof.
  exact (page_answers_on_the_awaited_event Mcp.declaredShapes
           (Bridge.parseOf (JObj [("componentName"%string, JStr "App")]))
           (fun _ => inr []) (fun _ => inr Overlay.Undefined)
           (fun _ => inr (Overlay.Plain (JObj [])))
           (fun _ _ _ => inr Overlay.Undefined)
           "get-component-states" (Some (JObj [("componentName"%string, JStr "App")]))
           {| Mcp.event := "get-component-states";
              Mcp.data := stringify (JObj [("componentName"%string, JStr "App")]) |}
           "get-component-states-response" eq_refl).
Defined.

(** ** Sessions and the [/messages] route *)

Section Sessions.

Import Mcp.

Lemma containsChar_app (c : ascii) (a b : string) :
  containsChar c (a +:+ b) = containsChar c a || containsChar c b.
Proof.
  induction a as [|d a IH]; [done|]. simpl. by rewrite IH, orb_assoc.
Qed.

Lemma splitPop_without_mark (s : string) :
  containsChar "?" s = false -> splitPop s = s.
Proof.
  destruct s as [|c rest]; [done|]. cbn [containsChar splitPop]. intros H.
  apply orb_false_iff in H as [Hc Hrest]. rewrite Ascii.eqb_sym in Hc.
  by rewrite Hrest, Hc.
Qed.

Lemma splitPop_has_no_mark (s : string) : containsChar "?" (splitPop s) = false.
Proof.
  induction s as [|c rest IH]; [done|]. cbn [splitPop].
  destruct (containsChar "?" rest) eqn:Hrest; [exact IH|].
  destruct (Ascii.eqb c "?") eqn:Hc; [exact Hrest|].
  cbn [containsChar]. rewrite Ascii.eqb_sym in Hc. by rewrite Hc, Hrest.
Qed.

Lemma splitPop_after_mark (path query : string) :
  containsChar "?" query = false ->
  splitPop (path +:+ String "?" query) = query.
Proof.
  intros Hquery. induction path as [|c path IH].
  - change (EmptyString +:+ String "?" query) with (String "?" query).
    cbn [splitPop]. by rewrite Hquery, Ascii.eqb_refl.
  - change (String c path +:+ String "?" query)
      with (String c (path +:+ String "?" query)).
    cbn [splitPop]. rewrite containsChar_app. cbn [containsChar].
    rewrite Ascii.eqb_refl, orb_true_r. exact IH.
Qed.

(** X12.  The query the [/messages] route reads is what follows the last
    question mark of the url: it never holds a question mark itself; a url
    without one is taken whole as the query, and a url that is missing gives
    the empty query. *)
Theorem query_is_what_follows_the_last_question_mark (m : string) :
  (forall u, containsChar "?" (queryOf {| method := m; url := Some u |}) = false) /\
  (forall path query, containsChar "?" query = false ->
     queryOf {| method := m; url := Some (path +:+ String "?" query) |} = query) /\
  (forall u, containsChar "?" u = false ->
     queryOf {| method := m; url := Some u |} = u) /\
  queryOf {| method := m; url := None |} = EmptyString.
Proof.
  unfold queryOf. cbn. repeat split.
  - apply splitPop_has_no_mark.
  - apply splitPop_after_mark.
  - apply splitPop_without_mark.
Qed.

Variable schemas : Schemas.
Variable timeout : nat.
Variable searchParam : string -> string -> option string.

Lemma messages_effect (req : HttpRequest) (s : Server) :
  headers (fst (messages searchParam req s)) = messagesHeaders /\
  transports (snd (messages searchParam req s)) = transports s /\
  wsSent (snd (messages searchParam req s)) = wsSent s /\
  ((handed (snd (messages searchParam req s)) = handed s /\
    exists code body, served (fst (messages searchParam req s)) = Ended code body) \/
   (exists id t,
      method req = "POST"%string /\ id <> EmptyString /\
      searchParam (queryOf req) "sessionId" = Some id /\
      transports s !! id = Some t /\
      served (fst (messages searchParam req s)) = HandedTo t /\
      handed (snd (messages searchParam req s)) = handed s ++ [(id, req)])).
Proof.
  unfold messages.
  destruct (String.eqb_spec (method req) "OPTIONS") as [Ho|Ho]; cbn.
  { repeat split. left. eauto. }
  destruct (String.eqb_spec (method req) "POST") as [Hp|Hp]; cbn.
  2: { repeat split. left. eauto. }
  destruct (searchParam (queryOf req) "sessionId") as [id|] eqn:Hq; cbn.
  2: { repeat split. left. eauto. }
  destruct (String.eqb_spec id EmptyString) as [Hid|Hid]; cbn.
  { repeat split. left. eauto. }
  destruct (transports s !! id) as [t|] eqn:Ht; cbn.
  - repeat split. right. exists id, t. done.
  - repeat split. left. eauto.
Qed.

(** X13.  Whatever the request, the [/messages] route answers with the
    three CORS headers and leaves the session registry and the websocket
    alone.  It either ends the response itself, handing nothing over, or
    the request is a POST whose [sessionId] names a registered transport,
    and exactly that request is handed to exactly that transport. *)
Theorem messages_route_hands_over_only_posts_of_known_sessions
    (req : HttpRequest) (s : Server) :
  headers (fst (messages searchParam req s)) = messagesHeaders /\
  transports (snd (messages searchParam req s)) = transports s /\
  wsSent (snd (messages searchParam req s)) = wsSent s /\
  ((handed (snd (messages searchParam req s)) = handed s /\
    exists code body, served (fst (messages searchParam req s)) = Ended code body) \/
   (exists id t,
      method req = "POST"%string /\ id <> EmptyString /\
      searchParam (queryOf req) "sessionId" = Some id /\
      transports s !! id = Some t /\
      served (fst (messages searchParam req s)) = HandedTo t /\
      handed (snd (messages searchParam req s)) = handed s ++ [(id, req)])).
Proof. apply messages_effect. Qed.

Lemma step_keeps_invariants (i : Input) (s : Server) :
  registryConsistent s /\ handedArePosts searchParam s ->
  registryConsistent (step schemas timeout searchParam i s) /\
  handedArePosts searchParam (step schemas timeout searchParam i s).
Proof.
  intros [Hreg Hposts].
  destruct i as [who session name arguments|name payload|dt|id|id|req]; cbn [step].
  - unfold toolCall. by destruct (callTool schemas name arguments).
  - done.
  - done.
  - split; [|done]. intros id' t. cbn. destruct (decide (id = id')) as [<-|Hne].
    + rewrite lookup_insert_eq. by intros [= <-].
    + rewrite lookup_insert_ne by done. apply Hreg.
  - split; [|done]. intros id' t. cbn. destruct (decide (id = id')) as [<-|Hne].
    + by rewrite lookup_delete_eq.
    + rewrite lookup_delete_ne by done. apply Hreg.
  - destruct (messages_effect req s) as (_ & Htr & _ & Hcase). split.
    + intros id t. rewrite Htr. apply Hreg.
    + intros id r Hin.
      destruct Hcase as [[Hsame _]|(id' & t & Hm & Hid & Hq & _ & _ & Hgrow)].
      * rewrite Hsame in Hin. by apply Hposts.
      * rewrite Hgrow in Hin. apply elem_of_app in Hin as [Hin|Hin]; [by apply Hposts|].
        apply list_elem_of_singleton in Hin. by injection Hin as -> ->.
Qed.

(** X14.  Along every run of the server from its start: each registered
    transport is filed under its own session id and posts to [/messages],
    and every request that was handed to a transport is a POST carrying
    that session's non-empty id in its query. *)
Theorem registry_and_handovers_stay_consistent (inputs : list Input) :
  let s := run schemas timeout searchParam inputs startServer in
  (forall id t, transports s !! id = Some t ->
     sessionId t = id /\ endpoint t = "/messages"%string) /\
  (forall id req, (id, req) ∈ handed s ->
     method req = "POST"%string /\ id <> EmptyString /\
     searchParam (queryOf req) "sessionId" = Some id).
Proof.
  cbn zeta.
  assert (Hgen : forall s, registryConsistent s /\ handedArePosts searchParam s ->
                   registryConsistent (run schemas timeout searchParam inputs s) /\
                   handedArePosts searchParam (run schemas timeout searchParam inputs s)).
  { induction inputs as [|i rest IH]; intros s Hs; [done|].
    cbn. apply IH. by apply step_keeps_invariants. }
  apply Hgen. split.
  - intros id t Hid. cbn in Hid. by rewrite lookup_empty in Hid.
  - intros id req Hin. cbn in Hin. by apply elem_of_nil in Hin.
Qed.

(** X15.  Opening a session and then posting to it: after [/sse] has
    registered the session [id], a POST to [/messages] naming [id] is handed
    to the transport created for it, whatever was registered under [id]
    before; once the connection has closed, the same POST is answered 404. *)
Theorem post_reaches_the_session_it_names (id : string) (req : HttpRequest) (s : Server) :
  method req = "POST"%string ->
  searchParam (queryOf req) "sessionId" = Some id ->
  id <> EmptyString ->
  served (fst (messages searchParam req (snd (sse id s)))) =
    HandedTo {| endpoint := "/messages"; sessionId := id |} /\
  handed (snd (messages searchParam req (snd (sse id s)))) = handed s ++ [(id, req)] /\
  served (fst (messages searchParam req (sseClose id (snd (sse id s))))) =
    Ended 404 "Not Found".
Proof.
  intros Hm Hq Hid. apply String.eqb_neq in Hid.
  unfold messages, sse, sseClose, withTransports. cbn. rewrite Hm, Hq. cbn. rewrite Hid. cbn.
  by rewrite lookup_insert_eq, lookup_delete_eq.
Qed.

End Sessions.

(** ** The announced endpoints *)

Section AnnouncedEndpoints.

Import Mcp.

(** X16.  The fallback origin is the protocol, a host and a port.  The
    protocol follows the https setting.  When the http server listens on a
    socket with a port, the origin names that port and the socket's address,
    with [localhost] in place of the wildcard addresses [::] and [0.0.0.0].
    In every other case (no http server or no address, a pipe name, a
    socket without a port) it names the configured port, or 5173 when none
    is configured, and the configured host when that is a name other than
    [0.0.0.0], or [localhost].  So the host is never [0.0.0.0]. *)
Theorem fallback_origin_never_names_the_wildcard (d : DevServer) :
  getFallbackOrigin d =
    protocolOf d +:+ "://" +:+ fallbackHost d +:+ ":" +:+ pretty (fallbackPort d) /\
  protocolOf d = (if https d then "https" else "http")%string /\
  fallbackHost d <> "0.0.0.0"%string /\
  (forall address port, addressInfo d = Some (SocketAddress address port) -> port <> 0 ->
     fallbackPort d = port /\
     (address = "::"%string \/ address = "0.0.0.0"%string -> fallbackHost d = "localhost"%string) /\
     (address <> "::"%string -> address <> "0.0.0.0"%string -> fallbackHost d = address) /\
     getFallbackOrigin d =
       (if https d then "https" else "http") +:+ "://" +:+
       (if String.eqb address "::" || String.eqb address "0.0.0.0"
        then "localhost" else address) +:+ ":" +:+ pretty port) /\
  ((forall address port, addressInfo d = Some (SocketAddress address port) -> port = 0) ->
     fallbackPort d = default 5173 (portConfig d) /\
     (forall h, hostConfig d = Some (HostName h) -> h <> "0.0.0.0"%string ->
        fallbackHost d = h) /\
     ((forall h, hostConfig d = Some (HostName h) -> h = "0.0.0.0"%string) ->
        fallbackHost d = "localhost"%string) /\
     getFallbackOrigin d =
       (if https d then "https" else "http") +:+ "://" +:+
       match hostConfig d with
       | Some (HostName h) => if String.eqb h "0.0.0.0" then "localhost" else h
       | _ => "localhost"
       end +:+ ":" +:+ pretty (default 5173 (portConfig d))).
Proof.
  assert (Hconf : forall protocol,
             configuredOrigin protocol d =
             protocol +:+ "://" +:+
               match hostConfig d with
               | Some (HostName h) => if String.eqb h "0.0.0.0" then "localhost" else h
               | _ => "localhost"
               end +:+ ":" +:+ pretty (default 5173 (portConfig d))).
  { intros protocol. unfold configuredOrigin, DEFAULT_VITE_PORT.
    destruct (hostConfig d) as [[h|b]|]; try reflexivity.
    by destruct (String.eqb h "0.0.0.0"). }
  unfold getFallbackOrigin, fallbackHost, fallbackPort, protocolOf, DEFAULT_VITE_PORT.
  split; [|split; [|split; [|split]]].
  - destruct (addressInfo d) as [[pipe|address port]|]; [apply Hconf| |apply Hconf].
    destruct (port =? 0); cbn [negb]; [apply Hconf|reflexivity].
  - reflexivity.
  - destruct (addressInfo d) as [[pipe|address port]|].
    + destruct (hostConfig d) as [[h|b]|]; try discriminate.
      destruct (String.eqb_spec h "0.0.0.0"); [discriminate|done].
    + destruct (port =? 0); cbn [negb].
      * destruct (hostConfig d) as [[h|b]|]; try discriminate.
        destruct (String.eqb_spec h "0.0.0.0"); [discriminate|done].
      * destruct (String.eqb_spec address "::"); cbn [orb]; [discriminate|].
        destruct (String.eqb_spec address "0.0.0.0"); [discriminate|done].
    + destruct (hostConfig d) as [[h|b]|]; try discriminate.
      destruct (String.eqb_spec h "0.0.0.0"); [discriminate|done].
  - intros address port Haddr Hport. rewrite Haddr. apply Z.eqb_neq in Hport.
    rewrite Hport. cbn [negb]. split; [done|]. split; [|split; [|done]].
    + intros [->| ->]; reflexivity.
    + intros Hany Hv4. apply String.eqb_neq in Hany, Hv4. by rewrite Hany, Hv4.
  - intros Hnoport.
    assert (Hhost : forall h, hostConfig d = Some (HostName h) -> h <> "0.0.0.0"%string ->
              match hostConfig d with
              | Some (HostName h) => if String.eqb h "0.0.0.0" then "localhost" else h
              | _ => "localhost"
              end = h).
    { intros h -> Hh. apply String.eqb_neq in Hh. by rewrite Hh. }
    assert (Hlocal : (forall h, hostConfig d = Some (HostName h) -> h = "0.0.0.0"%string) ->
              match hostConfig d with
              | Some (HostName h) => if String.eqb h "0.0.0.0" then "localhost" else h
              | _ => "localhost"
              end = "localhost"%string).
    { intros Hall. destruct (hostConfig d) as [[h|b]|]; try reflexivity.
      by rewrite (Hall h eq_refl). }
    destruct (addressInfo d) as [[pipe|address port]|].
    + split; [done|]. split; [exact Hhost|]. split; [exact Hlocal|apply Hconf].
    + rewrite (Hnoport address port eq_refl). cbn [Z.eqb negb].
      split; [done|]. split; [exact Hhost|]. split; [exact Hlocal|apply Hconf].
    + split; [done|]. split; [exact Hhost|]. split; [exact Hlocal|apply Hconf].
Qed.

Lemma resolveOrigins_local_nonempty (d : DevServer) : resolveOrigins d local <> [].
Proof. unfold resolveOrigins. by destruct (resolvedLocal d) as [[|o rest]|]. Qed.

(** X17.  There is always a local origin: the resolved local urls when
    Vite has some, and the fallback origin otherwise.  Network origins are
    the resolved ones, and none when Vite has none. *)
Theorem local_origins_are_never_empty (d : DevServer) :
  resolveOrigins d local <> [] /\
  (forall l, resolvedLocal d = Some l -> l <> [] -> resolveOrigins d local = l) /\
  (resolvedLocal d = None \/ resolvedLocal d = Some [] ->
     resolveOrigins d local = [getFallbackOrigin d]) /\
  resolveOrigins d network = default [] (resolvedNetwork d).
Proof.
  split; [apply resolveOrigins_local_nonempty|]. unfold resolveOrigins. repeat split.
  - intros l -> Hl. by destruct l.
  - by intros [-> | ->].
  - by destruct (resolvedNetwork d) as [[|o rest]|].
Qed.

Variable newURL : string -> string -> Thrown + string.

Lemma mapOrThrow_inr (f : string -> Thrown + string) (l ys : list string) :
  mapOrThrow f l = inr ys -> Forall2 (fun x y => f x = inr y) l ys.
Proof.
  revert ys. induction l as [|x rest IH]; intros ys H; cbn in H.
  - injection H as <-. constructor.
  - destruct (f x) as [e|y] eqn:Hx; [discriminate|].
    destruct (mapOrThrow f rest) as [e|ys'] eqn:Hrest; [discriminate|].
    injection H as <-. constructor; [done|by apply IH].
Qed.

Lemma getMcpServerEndpoints_inr (d : DevServer) (e : McpServerEndpoints) :
  getMcpServerEndpoints newURL d = inr e ->
  Forall2 (fun origin u => newURL "sse" origin = inr u)
          (resolveOrigins d local) (sseLocal e) /\
  Forall2 (fun origin u => newURL "sse" origin = inr u)
          (resolveOrigins d network) (sseNetwork e) /\
  Forall2 (fun origin u => newURL "messages" origin = inr u)
          (resolveOrigins d local) (messagesLocal e) /\
  Forall2 (fun origin u => newURL "messages" origin = inr u)
          (resolveOrigins d network) (messagesNetwork e).
Proof.
  unfold getMcpServerEndpoints, buildEndpointUrls. cbn.
  destruct (mapOrThrow _ (resolveOrigins d local)) as [?|sl] eqn:H1; [discriminate|].
  destruct (mapOrThrow _ (resolveOrigins d network)) as [?|sn] eqn:H2; [discriminate|].
  destruct (mapOrThrow (fun origin => newURL "messages" origin) (resolveOrigins d local))
    as [?|ml] eqn:H3; [discriminate|].
  destruct (mapOrThrow (fun origin => newURL "messages" origin) (resolveOrigins d network))
    as [?|mn] eqn:H4; [discriminate|].
  intros [= <-]. cbn.
  repeat split; by apply mapOrThrow_inr.
Qed.

(** X18.  When the endpoints can be built, each list pairs up with the
    origins it was built from, in order: the url for an origin is what
    [new URL] makes of the path without its leading slash ([sse],
    [messages]) relative to that origin.  There is at least one local
    endpoint of each kind. *)
Theorem endpoints_pair_up_with_the_origins (d : DevServer) (e : McpServerEndpoints) :
  getMcpServerEndpoints newURL d = inr e ->
  Forall2 (fun origin u => newURL "sse" origin = inr u)
          (resolveOrigins d local) (sseLocal e) /\
  Forall2 (fun origin u => newURL "sse" origin = inr u)
          (resolveOrigins d network) (sseNetwork e) /\
  Forall2 (fun origin u => newURL "messages" origin = inr u)
          (resolveOrigins d local) (messagesLocal e) /\
  Forall2 (fun origin u => newURL "messages" origin = inr u)
          (resolveOrigins d network) (messagesNetwork e) /\
  sseLocal e <> [] /\ messagesLocal e <> [].
Proof.
  intros H. destruct (getMcpServerEndpoints_inr d e H) as (H1 & H2 & H3 & H4).
  repeat split; try done.
  - intros Hnil. rewrite Hnil in H1. apply Forall2_nil_inv_r in H1.
    by apply (resolveOrigins_local_nonempty d).
  - intros Hnil. rewrite Hnil in H3. apply Forall2_nil_inv_r in H3.
    by apply (resolveOrigins_local_nonempty d).
Qed.

(** X19.  The start-up message lists the local SSE endpoints, joined by a
    comma and a space: there is always at least one, so neither the network
    endpoints nor the [http://localhost:<port>/sse] default is ever used. *)
Theorem announcement_lists_the_local_sse_endpoints
    (d : DevServer) (e : McpServerEndpoints) :
  getMcpServerEndpoints newURL d = inr e ->
  Plugin.announcement e d = joinWith ", " (sseLocal e).
Proof.
  intros H. destruct (getMcpServerEndpoints_inr d e H) as (H1 & _).
  unfold Plugin.announcement.
  destruct (sseLocal e) as [|u rest] eqn:Hsse; [|reflexivity].
  apply Forall2_nil_inv_r in H1. by destruct (resolveOrigins_local_nonempty d).
Qed.

End AnnouncedEndpoints.

(** X18 on a server that is not listening yet. *)
Lemma endpoints_pair_up_with_the_origins_witness :
  let e := {| Mcp.sseLocal := ["http://localhost:3001/sse"%string];
              Mcp.sseNetwork := [];
              Mcp.messagesLocal := ["http://localhost:3001/messages"%string];
              Mcp.messagesNetwork := [] |} in
  Forall2 (fun origin u => Mcp.originUrl "sse" origin = inr u)
          (Mcp.resolveOrigins Mcp.exampleDevServer Mcp.local) (Mcp.sseLocal e) /\
  Forall2 (fun origin u => Mcp.originUrl "sse" origin = inr u)
          (Mcp.resolveOrigins Mcp.exampleDevServer Mcp.network) (Mcp.sseNetwork e) /\
  Forall2 (fun origin u => Mcp.originUrl "messages" origin = inr u)
          (Mcp.resolveOrigins Mcp.exampleDevServer Mcp.local) (Mcp.messagesLocal e) /\
  Forall2 (fun origin u => Mcp.originUrl "messages" origin = inr u)
          (Mcp.resolveOrigins Mcp.exampleDevServer Mcp.network) (Mcp.messagesNetwork e) /\
  Mcp.sseLocal e <> [] /\ Mcp.messagesLocal e <> [].
Proof.
  exact (endpoints_pair_up_with_the_origins Mcp.originUrl Mcp.exampleDevServer
           {| Mcp.sseLocal := ["http://localhost:3001/sse"%string];
              Mcp.sseNetwork := [];
              Mcp.messagesLocal := ["http://localhost:3001/messages"%string];
              Mcp.messagesNetwork := [] |}
           eq_refl).
Defined.

(** X19 on the same server. *)
Lemma announcement_lists_the_local_sse_endpoints_witness :
  Plugin.announcement
    {| Mcp.sseLocal := ["http://localhost:3001/sse"%string];
       Mcp.sseNetwork := [];
       Mcp.messagesLocal := ["http://localhost:3001/messages"%string];
       Mcp.messagesNetwork := [] |}
    Mcp.exampleDevServer = "http://localhost:3001/sse"%string.
Proof.
  exact (announcement_lists_the_local_sse_endpoints Mcp.originUrl Mcp.exampleDevServer
           {| Mcp.sseLocal := ["http://localhost:3001/sse"%string];
              Mcp.sseNetwork := [];
              Mcp.messagesLocal := ["http://localhost:3001/messages"%string];
              Mcp.messagesNetwork := [] |}
           eq_refl).
Defined.

(** X15 on a session [abc]. *)
Lemma post_reaches_the_session_it_names_witness :
  let searchParam := fun (query key : string) =>
    if String.eqb query "sessionId=abc" && String.eqb key "sessionId"
    then Some "abc"%string else None in
  let req := {| Mcp.method := "POST"; Mcp.url := Some "/?sessionId=abc"%string |} in
  Mcp.served (fst (Mcp.messages searchParam req (snd (Mcp.sse "abc" Mcp.startServer)))) =
    Mcp.HandedTo {| Mcp.endpoint := "/messages"; Mcp.sessionId := "abc" |} /\
  Mcp.handed (snd (Mcp.messages searchParam req (snd (Mcp.sse "abc" Mcp.startServer)))) =
    Mcp.handed Mcp.startServer ++ [("abc"%string, req)] /\
  Mcp.served (fst (Mcp.messages searchParam req
                     (Mcp.sseClose "abc" (snd (Mcp.sse "abc" Mcp.startServer))))) =
    Mcp.Ended 404 "Not Found".
Proof.
  apply (post_reaches_the_session_it_names
           (fun (query key : string) =>
              if String.eqb query "sessionId=abc" && String.eqb key "sessionId"
              then Some "abc"%string else None)
           "abc" {| Mcp.method := "POST"; Mcp.url := Some "/?sessionId=abc"%string |}
           Mcp.startServer); [reflexivity|reflexivity|discriminate].
Defined.

(** ** The string methods *)

Section StringMethods.

Import JsString.

Lemma length_append (a b : string) :
  String.length (a +:+ b) = (String.length a + String.length b)%nat.
Proof.
  induction a as [|c a IH]; [done|].
  change (String c a +:+ b) with (String c (a +:+ b)).
  cbn [String.length]. by rewrite IH.
Qed.

Lemma includes_app_r (part a b : string) :
  includes part b = true -> includes part (a +:+ b) = true.
Proof.
  intros Hb. induction a as [|c a IH]; [exact Hb|].
  change (String c a +:+ b) with (String c (a +:+ b)).
  cbn [includes]. rewrite IH. apply orb_true_r.
Qed.

Lemma endsWith_refl (s : string) : endsWith s s = true.
Proof. destruct s; cbn [endsWith]; by rewrite String.eqb_refl. Qed.

Lemma endsWith_app (suffix a b : string) :
  (String.length suffix <= String.length b)%nat ->
  endsWith suffix (a +:+ b) = endsWith suffix b.
Proof.
  intros Hlen. induction a as [|c a IH]; [done|].
  change (String c a +:+ b) with (String c (a +:+ b)).
  cbn [endsWith]. rewrite IH.
  destruct (String.eqb_spec suffix (String c (a +:+ b))) as [Heq|_]; [|done].
  exfalso. apply (f_equal String.length) in Heq. cbn [String.length] in Heq.
  rewrite length_append in Heq. lia.
Qed.

Lemma stripPrefix_app (p rest : string) : stripPrefix p (p +:+ rest) = Some rest.
Proof.
  induction p as [|c p IH]; [by destruct rest|].
  change (String c p +:+ rest) with (String c (p +:+ rest)).
  cbn [stripPrefix]. by rewrite Ascii.eqb_refl.
Qed.

Lemma prefix_inv (p s : string) :
  String.prefix p s = true -> exists rest, s = p +:+ rest.
Proof.
  revert s. induction p as [|c p IH]; intros s H.
  - by exists s.
  - destruct s as [|d s]; [discriminate|]. cbn [String.prefix] in H.
    destruct (ascii_dec c d) as [<-|]; [|discriminate].
    destruct (IH s H) as [rest ->]. by exists rest.
Qed.

Lemma getSubstitution_plain (matched before after template tail : string) :
  includes "$" template = false ->
  includes "$" tail = false ->
  getSubstitution matched before after (template +:+ tail) =
  template +:+ getSubstitution matched before after tail.
Proof.
  intros Ht Htail. induction template as [|c template IH]; [done|].
  cbn [includes String.prefix] in Ht. apply orb_false_iff in Ht as [Hc Ht].
  change (String c template +:+ tail) with (String c (template +:+ tail)).
  cbn [getSubstitution].
  destruct (Ascii.eqb_spec c "$") as [->|_].
  - destruct (ascii_dec "$" "$") as [_|Hne]; [|by destruct Hne].
    destruct template; discriminate.
  - by rewrite (IH Ht).
Qed.

Lemma replace_swaps_a_leading_match (search replacement rest : string) :
  (includes "$" replacement = false ->
     replace search replacement (search +:+ rest) = replacement +:+ rest) /\
  (forall s, splitAtFirst search s = None -> replace search replacement s = s).
Proof.
  split.
  - intros Hplain. unfold replace.
    assert (Hsplit : splitAtFirst search (search +:+ rest) = Some (EmptyString, rest)).
    { destruct search as [|c search].
      - by destruct rest.
      - change (String c search +:+ rest) with (String c (search +:+ rest)).
        cbn [splitAtFirst stripPrefix]. by rewrite Ascii.eqb_refl, stripPrefix_app. }
    rewrite Hsplit.
    pose proof (getSubstitution_plain search EmptyString rest replacement EmptyString
                  Hplain eq_refl) as Hsub.
    assert (Hnil : forall s : string, s +:+ EmptyString = s).
    { intros s. induction s as [|c s IH]; [done|].
      change (String c s +:+ EmptyString) with (String c (s +:+ EmptyString)).
      by rewrite IH. }
    rewrite Hnil in Hsub. cbn [getSubstitution] in Hsub. rewrite Hnil in Hsub.
    by rewrite Hsub.
  - intros s Hnone. unfold replace. by rewrite Hnone.
Qed.

End StringMethods.

(** ** The plugin's module ids *)

Section PluginIds.

Import JsString Plugin.

Lemma isScript_resource (s : string) :
  isScript (s +:+ viteReactMcpResourceSymbol) = false.
Proof.
  unfold isScript.
  rewrite !endsWith_app by (cbn; lia). reflexivity.
Qed.

Lemma resolveId_cases (viteReactMcpPath importee id : string) :
  resolveId viteReactMcpPath importee = Some id ->
  (importee = viteReactMcpImportee /\ id = resolvedViteReactMcp) \/
  (exists rest resolved,
     importee = viteReactMcpImportee +:+ ":" +:+ rest /\
     id = resolved +:+ viteReactMcpResourceSymbol).
Proof.
  unfold resolveId.
  destruct (String.eqb_spec importee viteReactMcpImportee) as [->|_].
  - intros [= <-]. by left.
  - destruct (startsWith (viteReactMcpImportee +:+ ":") importee) eqn:Hstart; [|discriminate].
    intros [= <-]. right. apply prefix_inv in Hstart as [rest ->].
    exists rest. eexists. split; [|reflexivity]. reflexivity.
Qed.

(** X20.  [resolveId] resolves the ids of the plugin's own namespace and
    no other.  The bare importee resolves to itself behind a NUL character;
    [virtual:vite-react-mcp:<rest>] resolves to [<rest>] under the plugin's
    directory with the resource mark appended, provided the directory path
    holds no dollar sign (which [replace] would expand); any id that does
    not start with [virtual:vite-react-mcp] is left to the other resolvers. *)
Theorem resolveId_serves_the_virtual_namespace (viteReactMcpPath : string) :
  resolveId viteReactMcpPath viteReactMcpImportee = Some resolvedViteReactMcp /\
  (forall rest, includes "$" viteReactMcpPath = false ->
     resolveId viteReactMcpPath (viteReactMcpImportee +:+ ":" +:+ rest) =
     Some (viteReactMcpPath +:+ "/" +:+ rest +:+ viteReactMcpResourceSymbol)) /\
  (forall importee, startsWith viteReactMcpImportee importee = false ->
     resolveId viteReactMcpPath importee = None).
Proof.
  split; [reflexivity|]. split.
  - intros rest Hplain. unfold resolveId.
    change (viteReactMcpImportee +:+ ":" +:+ rest)
      with ((viteReactMcpImportee +:+ ":") +:+ rest).
    assert (String.eqb ((viteReactMcpImportee +:+ ":") +:+ rest) viteReactMcpImportee = false)
      as -> by reflexivity.
    assert (startsWith (viteReactMcpImportee +:+ ":")
              ((viteReactMcpImportee +:+ ":") +:+ rest) = true) as ->.
    { unfold startsWith. cbn. repeat (destruct (ascii_dec _ _); [|done]). by destruct rest. }
    assert (Hplain' : includes "$" (viteReactMcpPath +:+ "/") = false).
    { clear -Hplain. induction viteReactMcpPath as [|c p IH]; [reflexivity|].
      change (String c p +:+ "/") with (String c (p +:+ "/")).
      cbn [includes String.prefix] in *. apply orb_false_iff in Hplain as [Hc Hp].
      rewrite (IH Hp), orb_false_r.
      destruct (ascii_dec "$" c); [|reflexivity].
      destruct p; discriminate. }
    rewrite (proj1 (replace_swaps_a_leading_match
                      (viteReactMcpImportee +:+ ":") (viteReactMcpPath +:+ "/") rest) Hplain').
    f_equal.
    assert (Hassoc : forall a b c : string, (a +:+ b) +:+ c = a +:+ (b +:+ c)).
    { intros a b c. induction a as [|x a IH]; [done|].
      change ((String x a +:+ b) +:+ c) with (String x ((a +:+ b) +:+ c)).
      by rewrite IH. }
    by rewrite !Hassoc.
  - intros importee Hstart. unfold resolveId.
    destruct (String.eqb_spec importee viteReactMcpImportee) as [->|_].
    { by vm_compute in Hstart. }
    destruct (startsWith (viteReactMcpImportee +:+ ":") importee) eqn:Hcolon; [|done].
    apply prefix_inv in Hcolon as [rest ->]. exfalso.
    revert Hstart. unfold startsWith. cbn.
    repeat (destruct (ascii_dec _ _); [|done]). by destruct rest.
Qed.

Variable filter : string -> bool.
Variable transformSync : string -> string -> bool -> Thrown + Transformed.

(** X21.  The transform hook never touches what [resolveId] resolved: the
    ids it produces end in the resource mark or are the NUL-prefixed
    importee, not in [.js], [.jsx], [.ts] or [.tsx], so the hook returns
    [null] for them whatever the filter and Babel would do. *)
Theorem own_modules_are_never_transformed
    (viteReactMcpPath importee id source : string) (presetReactInstalled : bool) :
  resolveId viteReactMcpPath importee = Some id ->
  transformBabelCollectName filter transformSync presetReactInstalled source id = None.
Proof.
  intros Hresolve. unfold transformBabelCollectName.
  assert (isScript id = false) as ->; [|by rewrite orb_true_r].
  destruct (resolveId_cases _ _ _ Hresolve) as [[_ ->]|(rest & resolved & _ & ->)].
  - reflexivity.
  - apply isScript_resource.
Qed.

End PluginIds.

(** X21 on the overlay module the injected script asks for. *)
Lemma own_modules_are_never_transformed_witness :
  Plugin.resolveId "/opt/plugin" "virtual:vite-react-mcp:overlay.js" =
    Some "/opt/plugin/overlay.js?__vite-react-mcp-resource"%string /\
  Plugin.transformBabelCollectName (fun _ => true)
    (fun source _ _ => inr {| Plugin.code := source; Plugin.map := None |})
    true "export {}" "/opt/plugin/overlay.js?__vite-react-mcp-resource" = None.
Proof.
  split; [reflexivity|].
  exact (own_modules_are_never_transformed (fun _ => true)
           (fun source _ _ => inr {| Plugin.code := source; Plugin.map := None |})
           "/opt/plugin" "virtual:vite-react-mcp:overlay.js"
           "/opt/plugin/overlay.js?__vite-react-mcp-resource" "export {}" true eq_refl).
Defined.

(** ** The patterns read from the project configuration *)

Section ProjectConfig.

Import JsString Plugin.

Variable JSON_parse : string -> Thrown + Json.

Lemma toGlob_is_a_glob (pattern glob : Json) :
  toGlob pattern = inr glob -> patternIncludes "*" glob = inr true.
Proof.
  unfold toGlob. destruct (patternIncludes "*" pattern) as [e|[|]] eqn:Hinc; [done| |].
  - by intros [= <-].
  - destruct pattern as [| | |s| |]; try discriminate.
    destruct (endsWith "/" s); intros [= <-]; cbn [patternIncludes]; f_equal;
      by apply includes_app_r.
Qed.

Lemma mapToGlob_inr (items globs : list Json) :
  mapToGlob items = inr globs -> Forall2 (fun p g => toGlob p = inr g) items globs.
Proof.
  revert globs. induction items as [|p rest IH]; intros globs H; cbn in H.
  - injection H as <-. constructor.
  - destruct (toGlob p) as [e|g] eqn:Hp; [discriminate|].
    destruct (mapToGlob rest) as [e|gs] eqn:Hrest; [discriminate|].
    injection H as <-. constructor; [done|by apply IH].
Qed.

Lemma someNodeModules_true (items : list Json) :
  someNodeModules items = inr true ->
  exists p, p ∈ items /\ patternIncludes "node_modules" p = inr true.
Proof.
  induction items as [|p rest IH]; cbn; [discriminate|].
  destruct (patternIncludes "node_modules" p) as [e|[|]] eqn:Hp; [discriminate| |].
  - intros _. exists p. split; [apply elem_of_cons; by left|done].
  - intros H. destruct (IH H) as (q & Hq & Hinc). exists q.
    split; [apply elem_of_cons; by right|done].
Qed.

Lemma patternsOfConfig_inr (config : Json) (patterns : Patterns) :
  patternsOfConfig config = inr patterns ->
  (forall p, p ∈ include patterns -> patternIncludes "*" p = inr true) /\
  (exists p, p ∈ exclude patterns /\ patternIncludes "node_modules" p = inr true).
Proof.
  unfold patternsOfConfig.
  destruct (getMember config "include") as [e|includeValue]; [discriminate|].
  destruct (orEmptyArray includeValue) as [| | | |items|]; try discriminate.
  destruct (mapToGlob items) as [e|globs] eqn:Hglobs; [discriminate|].
  destruct (orEmptyArray (getMemberOpt config "exclude")) as [| | | |excluded|];
    try discriminate.
  destruct (someNodeModules excluded) as [e|[|]] eqn:Hsome; [discriminate| |];
    intros [= <-]; cbn; (split; [|]).
  - intros p Hp. apply mapToGlob_inr in Hglobs.
    apply list_elem_of_lookup in Hp as [k Hk].
    destruct (Forall2_lookup_r _ _ _ _ _ Hglobs Hk) as (q & _ & Hq).
    by apply (toGlob_is_a_glob q).
  - by apply someNodeModules_true.
  - intros p Hp. apply mapToGlob_inr in Hglobs.
    apply list_elem_of_lookup in Hp as [k Hk].
    destruct (Forall2_lookup_r _ _ _ _ _ Hglobs Hk) as (q & _ & Hq).
    by apply (toGlob_is_a_glob q).
  - exists (JStr "**/node_modules/**"). split; [|reflexivity].
    apply elem_of_app. right. by apply list_elem_of_singleton.
Qed.

Lemma readProjectConfig_cases (file : ConfigFile) :
  readProjectConfig JSON_parse file = defaultPatterns \/
  exists config, patternsOfConfig config = inr (readProjectConfig JSON_parse file).
Proof.
  unfold readProjectConfig. destruct file as [|content|e]; [by left| |by left].
  destruct (JSON_parse content) as [e|config]; [by left|].
  destruct (patternsOfConfig config) as [e|patterns] eqn:Hp; [by left|].
  right. by exists config.
Qed.

(** X22.  Whatever is at the configuration path (nothing, an unreadable
    file, text that is not JSON, any JSON value), the patterns returned
    exclude [node_modules]: some exclude pattern includes that text. *)
Theorem node_modules_are_always_excluded (file : ConfigFile) :
  exists p,
    p ∈ exclude (readProjectConfig JSON_parse file) /\
    patternIncludes "node_modules" p = inr true.
Proof.
  destruct (readProjectConfig_cases file) as [->|[config Hconfig]].
  - exists (JStr "**/node_modules/**"). split; [|reflexivity].
    by apply list_elem_of_singleton.
  - by apply (patternsOfConfig_inr config).
Qed.

(** X23.  Whatever is at the configuration path, every include pattern
    returned holds a [*]: a directory name has been turned into a glob over
    the script extensions, a glob has been kept. *)
Theorem include_patterns_are_always_globs (file : ConfigFile) (p : Json) :
  p ∈ include (readProjectConfig JSON_parse file) ->
  patternIncludes "*" p = inr true.
Proof.
  destruct (readProjectConfig_cases file) as [->|[config Hconfig]].
  - intros Hp. by apply list_elem_of_singleton in Hp as ->.
  - by apply (patternsOfConfig_inr config).
Qed.

Lemma mapToGlob_strings (patterns : list string) :
  mapToGlob (List.map JStr patterns) = inr (List.map (fun s => JStr (globOf s)) patterns).
Proof.
  induction patterns as [|s rest IH]; [done|]. cbn [List.map mapToGlob]. rewrite IH.
  unfold toGlob, globOf. cbn [patternIncludes].
  destruct (includes "*" s); [done|]. by destruct (endsWith "/" s).
Qed.

Lemma someNodeModules_strings (patterns : list string) :
  someNodeModules (List.map JStr patterns) =
  inr (existsb (includes "node_modules") patterns).
Proof.
  induction patterns as [|s rest IH]; [done|]. cbn [List.map someNodeModules existsb].
  cbn [patternIncludes]. by destruct (includes "node_modules" s).
Qed.

(** X24.  A configuration whose [include] and [exclude] are arrays of
    strings (either may be missing): the include patterns are returned in
    order, each directory name turned into a glob and each glob kept; the
    exclude patterns are returned as they are, followed by
    [**/node_modules/**] unless one of them already mentions
    [node_modules]. *)
Theorem string_patterns_are_normalised
    (content : string) (fields : list (string * Json))
    (included excluded : option (list string)) :
  JSON_parse content = inr (JObj fields) ->
  assoc "include" fields = (fun l => JArr (List.map JStr l)) <$> included ->
  assoc "exclude" fields = (fun l => JArr (List.map JStr l)) <$> excluded ->
  readProjectConfig JSON_parse (Readable content) =
  {| include := List.map (fun s => JStr (globOf s)) (default [] included);
     exclude :=
       List.map JStr (default [] excluded) ++
       if existsb (includes "node_modules") (default [] excluded)
       then [] else [JStr "**/node_modules/**"] |}.
Proof.
  intros Hparse Hinc Hexc. unfold readProjectConfig, patternsOfConfig.
  rewrite Hparse. cbn [getMember getMemberOpt]. rewrite Hinc, Hexc.
  assert (Hor : forall l : option (list string),
             orEmptyArray ((fun l => JArr (List.map JStr l)) <$> l) =
             JArr (List.map JStr (default [] l))) by (by intros [l|]).
  rewrite !Hor, mapToGlob_strings, someNodeModules_strings.
  destruct (existsb _ _); [by rewrite app_nil_r|done].
Qed.

Lemma mapToGlob_throws (items : list Json) (p : Json) :
  p ∈ items -> neitherStringNorArray p = true -> exists e, mapToGlob items = inl e.
Proof.
  intros Hin Hbad. induction items as [|q rest IH]; [by apply elem_of_nil in Hin|].
  apply elem_of_cons in Hin as [<-|Hin]; cbn [mapToGlob].
  - destruct p; try discriminate; cbn; eauto.
  - destruct (toGlob q); [by eauto|]. destruct (IH Hin) as [e ->]. eauto.
Qed.

(** X25.  The default patterns are returned when there is no file, when it
    cannot be read, when its text is not JSON, when the JSON is [null],
    and when some include pattern is neither a string nor an array. *)
Theorem unusable_configuration_gives_the_defaults :
  readProjectConfig JSON_parse Missing = defaultPatterns /\
  (forall e, readProjectConfig JSON_parse (Unreadable e) = defaultPatterns) /\
  (forall content e, JSON_parse content = inl e ->
     readProjectConfig JSON_parse (Readable content) = defaultPatterns) /\
  (forall content, JSON_parse content = inr JNull ->
     readProjectConfig JSON_parse (Readable content) = defaultPatterns) /\
  (forall content fields items p,
     JSON_parse content = inr (JObj fields) ->
     assoc "include" fields = Some (JArr items) ->
     p ∈ items -> neitherStringNorArray p = true ->
     readProjectConfig JSON_parse (Readable content) = defaultPatterns).
Proof.
  split; [done|]. split; [done|]. split; [|split].
  - intros content e Hparse. unfold readProjectConfig. by rewrite Hparse.
  - intros content Hparse. unfold readProjectConfig. by rewrite Hparse.
  - intros content fields items p Hparse Hinc Hin Hbad.
    unfold readProjectConfig, patternsOfConfig. rewrite Hparse.
    cbn [getMember]. rewrite Hinc. cbn [orEmptyArray truthy].
    by destruct (mapToGlob_throws items p Hin Hbad) as [e ->].
Qed.

End ProjectConfig.

(** X23 on a configuration that includes the directory [src]. *)
Lemma include_patterns_are_always_globs_witness :
  let config := JObj [("include"%string, JArr [JStr "src"])] in
  Plugin.include (Plugin.readProjectConfig (Bridge.parseOf config)
                    (Plugin.Readable (stringify config))) =
    [JStr "src/**/*.{js,jsx,ts,tsx}"] /\
  Plugin.patternIncludes "*" (JStr "src/**/*.{js,jsx,ts,tsx}") = inr true.
Proof.
  split; [reflexivity|].
  apply (include_patterns_are_always_globs
           (Bridge.parseOf (JObj [("include"%string, JArr [JStr "src"])]))
           (Plugin.Readable (stringify (JObj [("include"%string, JArr [JStr "src"])])))
           (JStr "src/**/*.{js,jsx,ts,tsx}")).
  by apply list_elem_of_singleton.
Defined.

(** X24 on a configuration with three include patterns and one exclude pattern. *)
Lemma string_patterns_are_normalised_witness :
  let config := JObj [ ("include"%string, JArr [JStr "src"; JStr "lib/"; JStr "test/*.ts"]);
                       ("exclude"%string, JArr [JStr "dist"]) ] in
  Plugin.readProjectConfig (Bridge.parseOf config) (Plugin.Readable (stringify config)) =
  {| Plugin.include := [ JStr "src/**/*.{js,jsx,ts,tsx}";
                         JStr "lib/**/*.{js,jsx,ts,tsx}";
                         JStr "test/*.ts" ];
     Plugin.exclude := [ JStr "dist"; JStr "**/node_modules/**" ] |}.
Proof.
  exact (string_patterns_are_normalised
           (Bridge.parseOf
              (JObj [ ("include"%string, JArr [JStr "src"; JStr "lib/"; JStr "test/*.ts"]);
                      ("exclude"%string, JArr [JStr "dist"]) ]))
           (stringify
              (JObj [ ("include"%string, JArr [JStr "src"; JStr "lib/"; JStr "test/*.ts"]);
                      ("exclude"%string, JArr [JStr "dist"]) ]))
           [ ("include"%string, JArr [JStr "src"; JStr "lib/"; JStr "test/*.ts"]);
             ("exclude"%string, JArr [JStr "dist"]) ]
           (Some ["src"; "lib/"; "test/*.ts"]%string) (Some ["dist"%string])
           eq_refl eq_refl eq_refl).
Defined.
